(** * nltk.sem.boxer: the Boxer output parser, embedded and verified

    A shallow embedding of [src/nltk/sem/boxer.py]: the term parser
    [BoxerDrsParser], the predicate name builder [_make_pred], the batch
    demultiplexer [Boxer._parse_to_drs_dict] and the compound-noun rewrite
    [Boxer._nn].  Python values are modelled as the code has them: [str]
    as [string], [int] as [Z], the result dictionary as a [gmap], raised
    exceptions as the [Raise] branch of [Result]. *)

From Stdlib Require Import ZArith String Ascii List Lia Bool DecimalString.
From stdpp Require Import gmap strings.
Import ListNotations.

Set Warnings "-register-all".

Local Open Scope string_scope.
Local Open Scope list_scope.

(** ** Python strings *)

Module Py.

(** [s.startswith(p)] *)
Definition startswith (s p : string) : bool := String.prefix p s.

(** [s.endswith(p)] *)
Definition endswith (s p : string) : bool :=
  let n := String.length s in
  let m := String.length p in
  (m <=? n)%nat && String.eqb (substring (n - m) m s) p.

(** [s[a:b]] for non-negative [a] and [b] *)
Definition slice (s : string) (a b : nat) : string := substring a (b - a) s.

(** [s[a:]] *)
Definition slice_from (s : string) (a : nat) : string :=
  substring a (String.length s - a) s.

(** [s[:-k]] *)
Definition drop_last (s : string) (k : nat) : string :=
  substring 0 (String.length s - k) s.

(** [s[1:-1]] *)
Definition strip_ends (s : string) : string :=
  substring 1 (String.length s - 2) s.

(** [s[0]]; [None] stands for the [IndexError] of the empty string *)
Definition first_char (s : string) : option ascii := String.get 0 s.

(** [s[-1]] *)
Definition last_char (s : string) : option ascii :=
  match String.length s with
  | O => None
  | S n => String.get n s
  end.

(** [s.index(c)] for a one-character [c]; [None] stands for [ValueError] *)
Fixpoint index (s : string) (c : ascii) : option nat :=
  match s with
  | EmptyString => None
  | String d r => if Ascii.eqb d c then Some O else option_map S (index r c)
  end.

(** the characters [str.strip()] removes *)
Definition isspace (c : ascii) : bool :=
  let n := nat_of_ascii c in
  (n =? 32)%nat || ((9 <=? n)%nat && (n <=? 13)%nat).

Fixpoint lstrip (s : string) : string :=
  match s with
  | EmptyString => EmptyString
  | String c r => if isspace c then lstrip r else s
  end.

Fixpoint rstrip (s : string) : string :=
  match s with
  | EmptyString => EmptyString
  | String c r =>
      match rstrip r with
      | EmptyString => if isspace c then EmptyString else String c EmptyString
      | r' => String c r'
      end
  end.

(** [s.strip()] *)
Definition strip (s : string) : string := rstrip (lstrip s).

(** [s.split(sep)] for a one-character [sep] *)
Fixpoint split_aux (sep : ascii) (s : string) (cur : string) : list string :=
  match s with
  | EmptyString => [cur]
  | String c r =>
      if Ascii.eqb c sep then cur :: split_aux sep r EmptyString
      else split_aux sep r (cur ++ String c EmptyString)
  end.

Definition split (s : string) (sep : ascii) : list string :=
  split_aux sep s EmptyString.

(** [s.replace(a, b)] for one-character [a] and [b] *)
Fixpoint replace (s : string) (a b : ascii) : string :=
  match s with
  | EmptyString => EmptyString
  | String c r => String (if Ascii.eqb c a then b else c) (replace r a b)
  end.

(** [str(n)] and ['%s' % n] for an integer *)
Definition str (n : Z) : string := NilZero.string_of_int (Z.to_int n).

(** ['0' <= c <= '9'] *)
Definition isdigit (c : ascii) : bool :=
  let n := nat_of_ascii c in (48 <=? n)%nat && (n <=? 57)%nat.

Fixpoint digits (s : string) (acc : Z) : option Z :=
  match s with
  | EmptyString => Some acc
  | String c r =>
      if isdigit c
      then digits r (10 * acc + (Z.of_nat (nat_of_ascii c) - 48))%Z
      else None
  end.

(** [int(s)] in base ten: surrounding blanks, an optional sign, one or
    more digits; [None] stands for [ValueError] *)
Definition int (s : string) : option Z :=
  match strip s with
  | EmptyString => None
  | String "-" (String _ _ as r) => option_map Z.opp (digits r 0%Z)
  | String "+" (String _ _ as r) => digits r 0%Z
  | r => digits r 0%Z
  end.

End Py.

(** ** Data model *)

(** [nltk.sem.logic.Variable]: a name.  ([Variable] is a keyword of Rocq,
    so the class is called [Var] here.) *)
Record Var := Variable_ { name : string }.

(** Modelled from the spec: equality of [Variable]s ([__eq__]), whose class is not in
    src/ ("two variables are equal iff their names are equal"). *)
Definition Var_eqb (a b : Var) : bool := String.eqb (name a) (name b).

(** The subclasses of [BinaryExpression] that the module builds. *)
Inductive BinaryClass :=
| DrtOrExpression
| DrtImpExpression
| ConcatenationDRS
| DrtEqualityExpression.

(** The expression classes of [nltk.sem.drt] that the module builds or
    inspects.  [BinaryExpression cls first second] is an instance of the
    binary class [cls]; an atom is a chain of [DrtApplicationExpression]s. *)
Inductive Expression :=
| DRS (refs : list Var) (conds : list Expression)
| DrtNegatedExpression (term : Expression)
| DrtLambdaExpression (variable : Var) (term : Expression)
| BinaryExpression (cls : BinaryClass) (first second : Expression)
| DrtVariableExpression (variable : Var)
| DrtApplicationExpression (function argument : Expression).

(** Exceptions the module raises or lets through. *)
Inductive Exception :=
| UnexpectedTokenException (tok : string) (expected : option string)
| TokenizationError
| IndexError
| ValueError
| AssertionError
| AttributeError.

(** The outcome of a call: a value, a raised exception, or [OutOfFuel] when
    a bounded recursion of the model was cut short (never a Python outcome). *)
Inductive Result (A : Type) :=
| OK (a : A)
| Raise (e : Exception)
| OutOfFuel.
Arguments OK {A} a.
Arguments Raise {A} e.
Arguments OutOfFuel {A}.

Definition rbind {A B} (r : Result A) (k : A -> Result B) : Result B :=
  match r with
  | OK a => k a
  | Raise e => Raise e
  | OutOfFuel => OutOfFuel
  end.

(** [None] of a partial string operation becomes the exception [e]. *)
Definition or_raise {A} (o : option A) (e : Exception) : Result A :=
  match o with
  | Some a => OK a
  | None => Raise e
  end.

(** [map(f, l)] for an [f] that can raise: left to right, first failure wins. *)
Definition rmap {A B} (f : A -> Result B) : list A -> Result (list B) :=
  fix go (l : list A) : Result (list B) :=
    match l with
    | [] => OK []
    | x :: l' => rbind (f x) (fun y => rbind (go l') (fun ys => OK (y :: ys)))
    end.

Declare Scope result_scope.
Delimit Scope result_scope with result.
Notation "x <~ r ;; k" := (rbind r (fun x => k))
  (at level 20, r at level 99, k at level 200, only parsing) : result_scope.
Notation "' p <~ r ;; k" := (rbind r (fun x => match x with p => k end))
  (at level 20, p pattern, r at level 99, k at level 200, only parsing) : result_scope.
Notation "r ;;; k" := (rbind r (fun _ => k))
  (at level 100, k at level 200, only parsing, right associativity) : result_scope.

(** ** The token stream of [LogicParser] *)

(** A parser method: reads tokens from the unread part of [self._buffer]
    (the tokens from [self._currentIndex] on) and leaves the rest. *)
Definition M (A : Type) : Type := list string -> Result (A * list string).

Definition ret {A} (a : A) : M A := fun toks => OK (a, toks).

Definition bind {A B} (m : M A) (k : A -> M B) : M B :=
  fun toks =>
    match m toks with
    | OK (a, toks') => k a toks'
    | Raise e => Raise e
    | OutOfFuel => OutOfFuel
    end.

Definition raise {A} (e : Exception) : M A := fun _ => Raise e.

Definition lift {A} (r : Result A) : M A :=
  fun toks => rbind r (fun a => OK (a, toks)).

Declare Scope parser_scope.
Delimit Scope parser_scope with parser.
Notation "x <- m ;; k" := (bind m (fun x => k))
  (at level 20, m at level 99, k at level 200, only parsing) : parser_scope.
Notation "m ;; k" := (bind m (fun _ => k))
  (at level 100, k at level 200, only parsing, right associativity) : parser_scope.

Local Open Scope parser_scope.

Definition end_of_input : string := "The given location is out of range".

(** Modelled from the spec: [LogicParser.token()], which is not in src/:
    return the next token and advance; reading past the last token is a
    parse error. *)
Definition token : M string :=
  fun toks =>
    match toks with
    | [] => Raise (UnexpectedTokenException end_of_input None)
    | tok :: rest => OK (tok, rest)
    end.

(** Modelled from the spec: [LogicParser.token(0)], which is not in src/:
    one-token lookahead, "peek without consuming". *)
Definition token0 : M string :=
  fun toks =>
    match toks with
    | [] => Raise (UnexpectedTokenException end_of_input None)
    | tok :: _ => OK (tok, toks)
    end.

(** Modelled from the spec: [LogicParser.assertToken], which is not in
    src/: a mismatch "fails with an UnexpectedTokenError naming the
    expected and actual tokens". *)
Definition assertToken (tok expected : string) : M unit :=
  if String.eqb tok expected then ret tt
  else raise (UnexpectedTokenException tok (Some expected)).

(** [self.assertToken(self.token(), expected)] *)
Definition expect (expected : string) : M unit :=
  tok <- token ;; assertToken tok expected.

(** [while cond: body], the loop variables being the state [s].  The
    recursion is bounded by [n]. *)
Fixpoint while_ {St} (n : nat) (cond : M bool) (body : St -> M St) (s : St) : M St :=
  match n with
  | O => fun _ => OutOfFuel
  | S n' =>
      c <- cond ;;
      if (c : bool) then s' <- body s ;; while_ n' cond body s' else ret s
  end.

(** The loops of the parser read at least one token per iteration, so the
    number of unread tokens bounds the number of iterations. *)
Definition while {St} (cond : M bool) (body : St -> M St) (s : St) : M St :=
  fun toks => while_ (S (length toks)) cond body s toks.

(** [self.token(0) != t] *)
Definition next_is_not (t : string) : M bool :=
  tok <- token0 ;; ret (negb (String.eqb tok t)).

(** [if self.token(0) == t: self.token()] *)
Definition swallow_if (t : string) : M unit :=
  tok <- token0 ;;
  if String.eqb tok t then token ;; ret tt else ret tt.

(** ** Tokenizer *)

(** [BoxerDrsParser.get_all_symbols] *)
Definition get_all_symbols : list string := ["("; ")"; ","; "["; "]"; ":"].

(** [self.quote_chars = [("'", "'", "\\", False)]]: opening and closing
    quote, escape character, and whether the quotes stay in the token. *)
Definition quote_chars : ascii * ascii * ascii * bool := ("'"%char, "'"%char, "\"%char, false).

Inductive Mode :=
| Bare (word : string)
| Quoted (tok : string)
| Escaped (tok : string).

Definition flush (word : string) : list string :=
  match word with
  | EmptyString => []
  | _ => [word]
  end.

Definition is_symbol (c : ascii) : bool :=
  existsb (String.eqb (String c EmptyString)) get_all_symbols.

(** Modelled from the spec: the tokenizer [LogicParser.process], which is
    not in src/: punctuation, bare words and quoted atoms ("content between
    matching ['], with [\] as the only escape character, escape rules passed
    through literally"); blanks separate tokens; input that ends inside a
    quote fails. *)
Fixpoint process (data : string) (m : Mode) : Result (list string) :=
  let '(start, close, escape, incl_quotes) := quote_chars in
  match data, m with
  | EmptyString, Bare word => OK (flush word)
  | EmptyString, _ => Raise TokenizationError
  | String c r, Bare word =>
      if Ascii.eqb c start then
        rbind (process r (Quoted (if incl_quotes then String c "" else "")))
              (fun toks => OK (flush word ++ toks))
      else if Py.isspace c then
        rbind (process r (Bare "")) (fun toks => OK (flush word ++ toks))
      else if is_symbol c then
        rbind (process r (Bare ""))
              (fun toks => OK (flush word ++ String c "" :: toks))
      else process r (Bare (word +:+ String c ""))
  | String c r, Quoted tok =>
      if Ascii.eqb c close then
        rbind (process r (Bare ""))
              (fun toks => OK ((if incl_quotes then tok +:+ String c "" else tok) :: toks))
      else if Ascii.eqb c escape then process r (Escaped (tok +:+ String c ""))
      else process r (Quoted (tok +:+ String c ""))
  | String c r, Escaped tok => process r (Quoted (tok +:+ String c ""))
  end.

(** ** BoxerDrsParser *)

(** The attributes [__init__] stores. *)
Record BoxerDrsParser := {
  occur_index : bool;
  discourse_id : option string
}.

(** [BoxerDrsParser._make_Variable] *)
Definition _make_Variable (name : string) : Var :=
  let name := if Py.startswith name "_G" then "z" +:+ Py.slice_from name 2 else name in
  Variable_ name.

(** [BoxerDrsParser._format_pred_name] *)
Fixpoint _format_pred_name (name : string) : string :=
  match name with
  | EmptyString => EmptyString
  | String c r =>
      if (Ascii.leb "A" c && Ascii.leb c "Z")
         || (Ascii.leb "a" c && Ascii.leb c "z")
         || (Ascii.leb "0" c && Ascii.leb c "9")
         || Ascii.eqb c "_"
      then String c (_format_pred_name r)
      else _format_pred_name r
  end.

(** What [_make_atom] is handed for the predicate and for each argument:
    a [str], a [Variable] or an expression. *)
Inductive Arg :=
| Str (s : string)
| VarArg (v : Var)
| Expr (e : Expression).

(** [isinstance(e, DrtAbstractVariableExpression)] *)
Definition is_variable_expression (e : Expression) : bool :=
  match e with
  | DrtVariableExpression _ => true
  | _ => false
  end.

(** The three-way test [_make_atom] applies to the predicate and to each
    argument. *)
Definition as_variable_expression (a : Arg) : Result Expression :=
  match a with
  | Str s => OK (DrtVariableExpression (_make_Variable s))
  | VarArg v => OK (DrtVariableExpression v)
  | Expr e => if is_variable_expression e then OK e else Raise AssertionError
  end.

Fixpoint _make_atom_args (accum : Expression) (args : list Arg) : Result Expression :=
  match args with
  | [] => OK accum
  | arg :: args' =>
      rbind (as_variable_expression arg) (fun arg =>
      _make_atom_args (DrtApplicationExpression accum arg) args')
  end.

(** [BoxerDrsParser._make_atom] *)
Definition _make_atom (pred : Arg) (args : list Arg) : Result Expression :=
  rbind (as_variable_expression pred) (fun pred => _make_atom_args pred args).

(** The digits an index encodes, as [_parse_index_list] computes them. *)
Definition sent_index (base_index : Z) : Z := (base_index / 1000 - 1)%Z.
Definition word_index (base_index : Z) : Z := (base_index mod 1000 - 1)%Z.

Definition nonempty {A} (l : list A) : bool :=
  match l with
  | [] => false
  | _ => true
  end.

(** the truth value of [self.discourse_id] *)
Definition truthy (s : option string) : bool :=
  match s with
  | Some (String _ _) => true
  | _ => false
  end.

Section Methods.

Variable self : BoxerDrsParser.

(** [BoxerDrsParser._make_pred] *)
Definition _make_pred (pos name : string) (indices : list (Z * Z)) (arity : Z) : string :=
  let disc_id_str :=
    match discourse_id self with
    | Some d => if truthy (Some d) && nonempty indices then d +:+ "_" else ""
    | None => ""
    end in
  let index_str :=
    match indices with
    | (s, w) :: _ =>
        if occur_index self then "s" +:+ Py.str s +:+ "_w" +:+ Py.str w +:+ "_" else ""
    | [] => ""
    end in
  let pos := if negb (nonempty indices) then "r" else pos in
  pos +:+ "_" +:+ name +:+ "_" +:+ disc_id_str +:+ index_str +:+ Py.str arity.

(** [BoxerDrsParser._parse_index_list] *)
Definition _parse_index_list : M (list (Z * Z)) :=
  expect "[" ;;
  indices <- while (next_is_not "]") (fun indices =>
      tok <- token ;;
      base_index <- lift (or_raise (Py.int tok) ValueError) ;;
      let indices := indices ++ [(sent_index base_index, word_index base_index)] in
      swallow_if "," ;;
      ret indices) [] ;;
  token ;;
  expect ":" ;;
  ret indices.

(** [BoxerDrsParser._handle_pred] *)
Definition _handle_pred (indices : list (Z * Z)) : M Expression :=
  expect "(" ;;
  arg <- token ;;
  expect "," ;;
  tok <- token ;;
  let f_name := _format_pred_name tok in
  expect "," ;;
  f_pos <- token ;;
  expect "," ;;
  f_sense <- token ;;
  expect ")" ;;
  let f_pred := _make_pred f_pos f_name indices 1 in
  lift (_make_atom (Str f_pred) [Str arg]).

(** [BoxerDrsParser._handle_named] *)
Definition _handle_named (indices : list (Z * Z)) : M Expression :=
  expect "(" ;;
  arg <- token ;;
  expect "," ;;
  tok <- token ;;
  let f_name := _format_pred_name tok in
  expect "," ;;
  f_pos <- token ;;
  expect "," ;;
  f_sense <- token ;;
  expect ")" ;;
  let f_pred := "n_" +:+ f_name +:+ "_" +:+ Py.str 1 in
  lift (_make_atom (Str f_pred) [Str arg]).

(** [BoxerDrsParser._handle_rel] *)
Definition _handle_rel (indices : list (Z * Z)) : M Expression :=
  expect "(" ;;
  arg1 <- token ;;
  expect "," ;;
  arg2 <- token ;;
  expect "," ;;
  tok <- token ;;
  let f_name := _format_pred_name tok in
  expect "," ;;
  f_sense <- token ;;
  expect ")" ;;
  let f_pred := "r_" +:+ f_name +:+ "_" +:+ Py.str 2 in
  lift (_make_atom (Str f_pred) [Str arg1; Str arg2]).

(** One slot of a [date] or [time] term: its index list is read and
    dropped, and the slot's value gives a condition unless it is the
    placeholder. *)
Definition slot (placeholder pred arg : string) (conds : list Expression)
  : M (list Expression) :=
  _parse_index_list ;;
  value <- token ;;
  if negb (String.eqb value placeholder)
  then atom <- lift (_make_atom (Str pred) [Str arg; Str value]) ;;
       ret (conds ++ [atom])
  else ret conds.

(** [BoxerDrsParser._handle_date] *)
Definition _handle_date (arg : string) : M (list Expression) :=
  let conds := [] in
  _parse_index_list ;;
  pol <- token ;;
  conds <-
    (if String.eqb pol "+"
     then atom <- lift (_make_atom (Str "r_pol_2") [Str arg; Str "pos"]) ;;
          ret (conds ++ [atom])
     else if String.eqb pol "-"
     then atom <- lift (_make_atom (Str "r_pol_2") [Str arg; Str "neg"]) ;;
          ret (conds ++ [atom])
     else ret conds) ;;
  expect "," ;;
  _parse_index_list ;;
  year <- token ;;
  conds <-
    (if negb (String.eqb year "XXXX")
     then let year := Py.replace year ":" "_" in
          atom <- lift (_make_atom (Str "r_year_2") [Str arg; Str year]) ;;
          ret (conds ++ [atom])
     else ret conds) ;;
  expect "," ;;
  conds <- slot "XX" "r_month_2" arg conds ;;
  expect "," ;;
  conds <- slot "XX" "r_day_2" arg conds ;;
  ret conds.

(** [BoxerDrsParser._handle_time] *)
Definition _handle_time (arg : string) : M (list Expression) :=
  let conds := [] in
  conds <- slot "XX" "r_hour_2" arg conds ;;
  expect "," ;;
  conds <- slot "XX" "r_min_2" arg conds ;;
  expect "," ;;
  conds <- slot "XX" "r_sec_2" arg conds ;;
  ret conds.

(** [BoxerDrsParser._handle_time_expression]; [None] is Python's [None],
    returned for a functor that is neither [date] nor [time]. *)
Definition _handle_time_expression (arg : string) : M (option (list Expression)) :=
  tok <- token ;;
  expect "(" ;;
  let finish (conds : list Expression) : M (option (list Expression)) :=
    expect ")" ;;
    let pred := "r_" +:+ tok +:+ "_1" in
    atom <- lift (_make_atom (Str pred) [Str arg]) ;;
    ret (Some ([atom] ++ conds)) in
  if String.eqb tok "date" then
    conds <- _handle_date arg ;; finish conds
  else if String.eqb tok "time" then
    conds <- _handle_time arg ;; finish conds
  else ret None.

(** [BoxerDrsParser._handle_timex] *)
Definition _handle_timex (indices : list (Z * Z)) : M (option (list Expression)) :=
  expect "(" ;;
  arg <- token ;;
  expect "," ;;
  new_conds <- _handle_time_expression arg ;;
  expect ")" ;;
  ret new_conds.

(** [BoxerDrsParser._handle_card] *)
Definition _handle_card (indices : list (Z * Z)) : M Expression :=
  expect "(" ;;
  arg <- token ;;
  expect "," ;;
  value <- token ;;
  expect "," ;;
  rel <- token ;;
  expect ")" ;;
  lift (_make_atom (Str "r_card_3") [Str arg; Str value; Str rel]).

(** [BoxerDrsParser._handle_eq] *)
Definition _handle_eq (indices : list (Z * Z)) : M Expression :=
  expect "(" ;;
  tok1 <- token ;;
  let e1 := DrtVariableExpression (_make_Variable tok1) in
  expect "," ;;
  tok2 <- token ;;
  let e2 := DrtVariableExpression (_make_Variable tok2) in
  expect ")" ;;
  ret (BinaryExpression DrtEqualityExpression e1 e2).

(** The productions below call [self.parse_Expression(None)]; the section
    takes it as [parse_Expression] and the recursion is tied afterwards. *)
Variable parse_Expression : M Expression.

(** [BoxerDrsParser._make_binary_expression] *)
Definition _make_binary_expression (constructor : BinaryClass) : M Expression :=
  expect "(" ;;
  e1 <- parse_Expression ;;
  expect "," ;;
  e2 <- parse_Expression ;;
  expect ")" ;;
  ret (BinaryExpression constructor e1 e2).

(** [BoxerDrsParser._handle_prop] *)
Definition _handle_prop (indices : list (Z * Z)) : M Expression :=
  expect "(" ;;
  arg <- token ;;
  expect "," ;;
  drs <- parse_Expression ;;
  expect ")" ;;
  ret drs.

(** The body of the [while] loop of [_handle_whq]. *)
Definition _handle_whq_answer (ans_types : list string) : M (list string) :=
  cat <- token ;;
  expect ":" ;;
  if String.eqb cat "des" then
    tok <- token ;; ret (ans_types ++ [tok])
  else if String.eqb cat "num" then
    let ans_types := ans_types ++ ["number"] in
    typ <- token ;;
    if String.eqb typ "cou" then ret (ans_types ++ ["count"])
    else ret (ans_types ++ [typ])
  else
    tok <- token ;; ret (ans_types ++ [tok]).

(** The list comprehension that ends [_handle_whq]. *)
Definition _handle_whq_atoms (ref : Expression) (ans_types : list string)
  : Result (list Expression) :=
  rmap (fun f_name => _make_atom (Str (_make_pred "n" f_name [] 1)) [Expr ref]) ans_types.

(** [BoxerDrsParser._handle_whq] *)
Definition _handle_whq (indices : list (Z * Z)) : M Expression :=
  expect "(" ;;
  expect "[" ;;
  ans_types <- while (next_is_not "]") _handle_whq_answer [] ;;
  token ;;
  expect "," ;;
  d1 <- parse_Expression ;;
  expect "," ;;
  tok <- token ;;
  let ref := DrtVariableExpression (_make_Variable tok) in
  expect "," ;;
  d2 <- parse_Expression ;;
  expect ")" ;;
  atoms <- lift (_handle_whq_atoms ref ans_types) ;;
  let d3 := DRS [] atoms in
  ret (BinaryExpression ConcatenationDRS d3 (BinaryExpression ConcatenationDRS d1 d2)).

(** [BoxerDrsParser.handle_condition]; [None] is the [None] Python returns
    when no branch is taken. *)
Definition handle_condition (tok : string) (indices : list (Z * Z))
  : M (option (list Expression)) :=
  if String.eqb tok "not" then
    expect "(" ;;
    e <- parse_Expression ;;
    expect ")" ;;
    ret (Some [DrtNegatedExpression e])
  else if String.eqb tok "or" then
    e <- _make_binary_expression DrtOrExpression ;; ret (Some [e])
  else if String.eqb tok "imp" then
    e <- _make_binary_expression DrtImpExpression ;; ret (Some [e])
  else if String.eqb tok "eq" then
    e <- _handle_eq indices ;; ret (Some [e])
  else if String.eqb tok "prop" then
    e <- _handle_prop indices ;; ret (Some [e])
  else if String.eqb tok "pred" then
    e <- _handle_pred indices ;; ret (Some [e])
  else if String.eqb tok "named" then
    e <- _handle_named indices ;; ret (Some [e])
  else if String.eqb tok "rel" then
    e <- _handle_rel indices ;; ret (Some [e])
  else if String.eqb tok "timex" then
    _handle_timex indices
  else if String.eqb tok "card" then
    e <- _handle_card indices ;; ret (Some [e])
  else if String.eqb tok "whq" then
    e <- _handle_whq indices ;; ret (Some [e])
  else ret None.

(** [BoxerDrsParser.parse_condition] *)
Definition parse_condition (indices : list (Z * Z)) : M (list Expression) :=
  tok <- token ;;
  accum <- handle_condition tok indices ;;
  match accum with
  | None => raise (UnexpectedTokenException tok None)
  | Some accum => ret accum
  end.

(** The bodies of the two [while] loops of [parse_drs]. *)
Definition parse_drs_ref (refs : list Var) : M (list Var) :=
  indices <- _parse_index_list ;;
  tok <- token ;;
  let refs := refs ++ [_make_Variable tok] in
  swallow_if "," ;;
  ret refs.

Definition parse_drs_cond (conds : list Expression) : M (list Expression) :=
  indices <- _parse_index_list ;;
  new <- parse_condition indices ;;
  let conds := conds ++ new in
  swallow_if "," ;;
  ret conds.

(** [BoxerDrsParser.parse_drs] *)
Definition parse_drs : M Expression :=
  expect "(" ;;
  expect "[" ;;
  refs <- while (next_is_not "]") parse_drs_ref [] ;;
  token ;;
  expect "," ;;
  expect "[" ;;
  conds <- while (next_is_not "]") parse_drs_cond [] ;;
  token ;;
  expect ")" ;;
  ret (DRS refs conds).

(** [BoxerDrsParser.handle_drs]; [None] when no branch is taken. *)
Definition handle_drs (tok : string) : M (option Expression) :=
  if String.eqb tok "drs" then
    e <- parse_drs ;; ret (Some e)
  else if String.eqb tok "merge" then
    e <- _make_binary_expression ConcatenationDRS ;; ret (Some e)
  else if String.eqb tok "smerge" then
    e <- _make_binary_expression ConcatenationDRS ;; ret (Some e)
  else ret None.

(** [BoxerDrsParser.handle] *)
Definition handle (tok : string) : M (option Expression) := handle_drs tok.

(** [BoxerDrsParser.attempt_adjuncts] *)
Definition attempt_adjuncts (expression : Expression) : M Expression := ret expression.

(** Modelled from the spec: one call of [LogicParser.parse_Expression],
    which is not in src/: read the head token, let [handle] choose the
    production, fail on a head with no production. *)
Definition parse_Expression_body : M Expression :=
  tok <- token ;;
  accum <- handle tok ;;
  match accum with
  | None => raise (UnexpectedTokenException tok None)
  | Some accum => attempt_adjuncts accum
  end.

End Methods.

(** [self.parse_Expression(None)], the recursion bounded by [fuel]. *)
Fixpoint parse_Expression (self : BoxerDrsParser) (fuel : nat) : M Expression :=
  match fuel with
  | O => fun _ => OutOfFuel
  | S fuel' => parse_Expression_body self (parse_Expression self fuel')
  end.

(** Modelled from the spec: [LogicParser.parse], which is not in src/:
    tokenize, then read one term, "leaving the remainder of the stream (if
    any) unconsumed".  Every nested term starts with a token of its own, so
    the number of tokens bounds the depth of the recursion. *)
Definition parse (self : BoxerDrsParser) (data : string) : Result Expression :=
  rbind (process data (Bare "")) (fun toks =>
  rbind (parse_Expression self (S (length toks)) toks) (fun r => OK (fst r))).

Definition default_parser : BoxerDrsParser :=
  {| occur_index := false; discourse_id := None |}.

Definition atom (pred : string) (args : list string) : Expression :=
  fold_left (fun accum arg => DrtApplicationExpression accum (DrtVariableExpression (Variable_ arg)))
            args (DrtVariableExpression (Variable_ pred)).

(** ** Boxer: the compound-noun rewrite *)

Local Open Scope result_scope.

Fixpoint uncurry_loop (function : Expression) (args : list Expression)
  : Expression * list Expression :=
  match function with
  | DrtApplicationExpression function' argument => uncurry_loop function' (argument :: args)
  | _ => (function, args)
  end.

(** Modelled from the spec: [ApplicationExpression.uncurry], which is not
    in src/: the head of a chain of curried applications and its arguments
    in order. *)
Definition uncurry (function argument : Expression) : Expression * list Expression :=
  uncurry_loop function [argument].

(** [func.variable.name]: variable expressions and lambda expressions have
    the attribute [variable], the other classes raise [AttributeError]. *)
Definition variable_name (func : Expression) : Result string :=
  match func with
  | DrtVariableExpression variable => OK (name variable)
  | DrtLambdaExpression variable _ => OK (name variable)
  | _ => Raise AttributeError
  end.

(** [Boxer._nn].  In the last branch of the application case the source
    rebuilds the chain from [func] and [args]; here the chain is walked
    down its function side, which visits [func] and the arguments in the
    same order ([_nn_application] states the source's form). *)
Fixpoint _nn (drs : Expression) : Result Expression :=
  match drs with
  | DRS refs conds =>
      conds <~ rmap _nn conds ;;
      OK (DRS refs conds)
  | DrtNegatedExpression term =>
      term <~ _nn term ;;
      OK (DrtNegatedExpression term)
  | DrtLambdaExpression variable term =>
      term <~ _nn term ;;
      OK (DrtLambdaExpression variable term)
  | BinaryExpression cls first second =>
      first <~ _nn first ;;
      second <~ _nn second ;;
      OK (BinaryExpression cls first second)
  | DrtApplicationExpression function argument =>
      let '(func, args) := uncurry function argument in
      func_name <~ variable_name func ;;
      if String.eqb func_name "r_nn_2" then
        match args with
        | [arg1; arg2] => OK (BinaryExpression DrtEqualityExpression arg1 arg2)
        | _ => Raise AssertionError
        end
      else
        accum <~ (fix chain (function : Expression) : Result Expression :=
                    match function with
                    | DrtApplicationExpression function' argument' =>
                        accum <~ chain function' ;;
                        arg <~ _nn argument' ;;
                        OK (DrtApplicationExpression accum arg)
                    | _ => _nn function
                    end) function ;;
        arg <~ _nn argument ;;
        OK (DrtApplicationExpression accum arg)
  | DrtVariableExpression _ => OK drs
  end.

(** [Boxer._clean_drs] *)
Definition _clean_drs (drs : Expression) : Result Expression := _nn drs.

(** The loop [for arg in args: accum = accum(self._nn(arg))]. *)
Fixpoint _nn_args (accum : Expression) (args : list Expression) : Result Expression :=
  match args with
  | [] => OK accum
  | arg :: args' =>
      arg <~ _nn arg ;;
      _nn_args (DrtApplicationExpression accum arg) args'
  end.

(** ** Boxer: the batch demultiplexer *)

(** [assert cond] *)
Definition assert (cond : bool) : Result unit :=
  if cond then OK tt else Raise AssertionError.

Definition newline : ascii := "010"%char.

(** The part of the loop body that reads the discourse id off an [id(]
    line, with the position of the comma. *)
Definition discourse_id_of (line : string) : Result (string * nat) :=
  comma_idx <~ or_raise (Py.index line ",") ValueError ;;
  let discourse_id := Py.slice line 3 comma_idx in
  c0 <~ or_raise (Py.first_char discourse_id) IndexError ;;
  let quoted :=
    Ascii.eqb c0 "'" &&
    match Py.last_char discourse_id with
    | Some c => Ascii.eqb c "'"
    | None => false
    end in
  let discourse_id := if quoted then Py.strip_ends discourse_id else discourse_id in
  OK (discourse_id, comma_idx).

Section Demultiplexer.

(** [Expression.simplify] of the logic library, which is not in src/; the
    demultiplexer only passes its result on. *)
Variable simplify : Expression -> Expression.

Variable lines : list string.
Variable occur_index_ : bool.
Variable use_disc_id : bool.

(** The body of the [if line.startswith('id(')] block: the key and the
    value of the entry it adds to [drs_dict]. *)
Definition parse_discourse (i : nat) (line : string) : Result (string * Expression) :=
  '(discourse_id_, comma_idx) <~ discourse_id_of line ;;
  close_idx <~ or_raise (Py.index line ")") ValueError ;;
  let drs_id := Py.slice line (comma_idx + 1) close_idx in
  line <~ or_raise (lines !! (i + 4)%nat) IndexError ;;
  assert (Py.startswith line ("sem(" +:+ drs_id +:+ ",")) ;;;
  line <~ or_raise (lines !! (i + 8)%nat) IndexError ;;
  assert (Py.endswith line ").") ;;;
  let drs_input := Py.strip (Py.drop_last line 2) in
  let parser :=
    {| occur_index := occur_index_;
       discourse_id := if use_disc_id then Some discourse_id_ else None |} in
  drs <~ parse parser drs_input ;;
  let drs := simplify drs in
  drs <~ _clean_drs drs ;;
  OK (discourse_id_, drs).

(** One iteration of [while i < len(lines)]: the new [i] and [drs_dict]. *)
Definition step (i : nat) (drs_dict : gmap string Expression)
  : Result (nat * gmap string Expression) :=
  line <~ or_raise (lines !! i) IndexError ;;
  if Py.startswith line "id(" then
    '(discourse_id_, drs) <~ parse_discourse i line ;;
    OK ((i + 8) + 1, <[discourse_id_ := drs]> drs_dict)%nat
  else OK (i + 1, drs_dict)%nat.

Fixpoint loop (n : nat) (i : nat) (drs_dict : gmap string Expression)
  : Result (gmap string Expression) :=
  match n with
  | O => OutOfFuel
  | S n' =>
      if (i <? length lines)%nat then
        '(i', drs_dict') <~ step i drs_dict ;;
        loop n' i' drs_dict'
      else OK drs_dict
  end.

End Demultiplexer.

Section Boxer.

Variable simplify : Expression -> Expression.

(** [Boxer._parse_to_drs_dict].  [i] grows in every iteration, so the
    number of lines bounds the number of iterations. *)
Definition _parse_to_drs_dict (boxer_out : string) (occur_index use_disc_id : bool)
  : Result (gmap string Expression) :=
  let lines := Py.split boxer_out newline in
  loop simplify lines occur_index use_disc_id (S (length lines)) 0 ∅.

(** [_call_candc] followed by [_call_boxer]: the two external programs,
    taken as the text Boxer prints for the inputs and their ids, or the
    exception a failed call raises. *)
Variable run_boxer : list (list string) -> list string -> Result string.

(** [Boxer.batch_interpret_multisentence] *)
Definition batch_interpret_multisentence (inputs : list (list string))
  (occur_index : bool) (discourse_ids : option (list string))
  : Result (list (option Expression)) :=
  '(discourse_ids, use_disc_id) <~
    match discourse_ids with
    | Some discourse_ids =>
        assert (length inputs =? length discourse_ids)%nat ;;;
        OK (discourse_ids, true)
    | None =>
        OK (map (fun n => Py.str (Z.of_nat n)) (seq 0 (length inputs)), false)
    end ;;
  boxer_out <~ run_boxer inputs discourse_ids ;;
  drs_dict <~ _parse_to_drs_dict boxer_out occur_index use_disc_id ;;
  OK (map (fun id => drs_dict !! id) discourse_ids).

End Boxer.

(** Modelled from the spec: [Expression.simplify] of the logic library,
    which is not in src/: "merge flattening", the concatenation of two
    boxes becoming one box.  (The parser builds no lambda term, so there is
    nothing to beta-reduce in what it hands over.) *)
Fixpoint simplify (e : Expression) : Expression :=
  match e with
  | DRS refs conds => DRS refs (map simplify conds)
  | DrtNegatedExpression term => DrtNegatedExpression (simplify term)
  | DrtLambdaExpression variable term => DrtLambdaExpression variable (simplify term)
  | BinaryExpression cls first second =>
      match cls, simplify first, simplify second with
      | ConcatenationDRS, DRS refs1 conds1, DRS refs2 conds2 =>
          DRS (refs1 ++ refs2) (conds1 ++ conds2)
      | _, first, second => BinaryExpression cls first second
      end
  | DrtVariableExpression _ => e
  | DrtApplicationExpression function argument =>
      DrtApplicationExpression (simplify function) (simplify argument)
  end.

(** ** Sample output of the external tool *)

(** The nine lines Boxer prints for one discourse: the [id(] line, the
    [sem(] header four lines below, the term four lines further on. *)
Definition discourse_block (id drs_id term : string) : list string :=
  [ "id(" +:+ id +:+ "," +:+ drs_id +:+ ").";
    "";
    "%%% discourse " +:+ drs_id;
    "";
    "sem(" +:+ drs_id +:+ ",";
    "    [word],";
    "    [pos],";
    "    [ne],";
    "    " +:+ term +:+ " )." ].

Fixpoint join (sep : string) (l : list string) : string :=
  match l with
  | [] => ""
  | [x] => x
  | x :: l' => x +:+ sep +:+ join sep l'
  end.

Definition boxer_output (blocks : list (list string)) : string :=
  join (String newline "") (":- multifile sem/5, id/2." :: concat blocks).

Definition dog_term : string := "drs([[1001]:_G1],[[1002]:pred(_G1,dog,n,0)])".
Definition dog_drs : Expression := DRS [Variable_ "z1"] [atom "n_dog_1" ["z1"]].

Definition two_discourses : string :=
  boxer_output [discourse_block "'d1'" "1" dog_term;
                discourse_block "d2" "2" "smerge(drs([[]:x],[]),drs([],[[]:rel(x,y,nn,0)]))"].

Definition folded_drs : Expression :=
  DRS [Variable_ "x"]
      [BinaryExpression DrtEqualityExpression
         (DrtVariableExpression (Variable_ "x"))
         (DrtVariableExpression (Variable_ "y"))].


(** ** Notions the properties are stated with *)

(** The wire encoding of a position: [1000*(sentence+1) + (word+1)]. *)
Definition encode (sentence word : Z) : Z := (1000 * (sentence + 1) + (word + 1))%Z.

(** The rewrite of a variable name, in the words of the specification. *)
Definition rewritten (name : string) : string :=
  match name with
  | String a (String b rest) =>
      if Ascii.eqb a "_" && Ascii.eqb b "G" then "z" +:+ rest else name
  | _ => name
  end.

(** Printing an index and reading it back gives the index. *)
Definition int_str_ok (n : Z) : bool :=
  match Py.int (Py.str n) with
  | Some m => Z.eqb m n
  | None => false
  end.

Definition encodings : list Z :=
  map (fun k => 1001 + Z.of_nat k)%Z (seq 0 (Z.to_nat 8999)).

(** Two outputs of the external tool cut short after an [id(] line: before
    the [sem(] header, and between the header and the term. *)
Definition truncated_before_header : string := "id(a,1).".

Definition truncated_before_term : string :=
  join (String newline "") ["id(a,1)."; ""; ""; ""; "sem(1,"; "    [word],"].

(** The keywords [handle_condition] has a branch for. *)
Definition condition_keywords : list string :=
  ["not"; "or"; "imp"; "eq"; "prop"; "pred"; "named"; "rel"; "timex"; "card"; "whq"].

Definition recognized (tok : string) : bool :=
  existsb (String.eqb tok) condition_keywords.

(** The answer-type names of one [Category:Answer] pair, in the words of
    the specification. *)
Definition answer_types (category answer : string) : list string :=
  if String.eqb category "des" then [answer]
  else if String.eqb category "num"
       then ["number"; if String.eqb answer "cou" then "count" else answer]
       else [answer].

Definition answer_type_names (pairs : list (string * string)) : list string :=
  flat_map (fun p => answer_types (fst p) (snd p)) pairs.

(** The tokens of a list of [Category:Answer] pairs. *)
Definition answer_tokens (pairs : list (string * string)) : list string :=
  flat_map (fun p => [fst p; ":"; snd p]) pairs.

(** The unary atom [<pos>_<type>_1(ref)]. *)
Definition type_atom (pos type : string) (ref : Var) : Expression :=
  DrtApplicationExpression
    (DrtVariableExpression (Variable_ (pos +:+ "_" +:+ type +:+ "_1")))
    (DrtVariableExpression ref).

(** A question term with one answer type, and its tokens. *)
Definition whq_term : string := "drs([],[[]:whq([des:per],drs([],[]),_G2,drs([],[]))])".

(** The last character of a string. *)
Fixpoint final_char (s : string) : option ascii :=
  match s with
  | EmptyString => None
  | String c r =>
      match final_char r with
      | Some d => Some d
      | None => Some c
      end
  end.

(** The arity a predicate name ends with: its last character, read as a
    digit. *)
Definition arity_digit (pred : string) : option nat :=
  match final_char pred with
  | Some c => if Py.isdigit c then Some (nat_of_ascii c - 48)%nat else None
  | None => None
  end.

(** An atom: a variable expression for the predicate, applied to variable
    expressions, as many as the predicate's name says. *)
Definition atom_ok (func : Expression) (args : list Expression) : bool :=
  match func with
  | DrtVariableExpression pred =>
      match arity_digit (name pred) with
      | Some k => (k =? length args)%nat
      | None => false
      end
      && forallb is_variable_expression args
  | _ => false
  end.

(** Every application chain of the tree is such an atom. *)
Fixpoint arity_ok (e : Expression) : bool :=
  match e with
  | DRS _ conds => forallb arity_ok conds
  | DrtNegatedExpression term => arity_ok term
  | DrtLambdaExpression _ term => arity_ok term
  | BinaryExpression _ first second => arity_ok first && arity_ok second
  | DrtVariableExpression _ => true
  | DrtApplicationExpression function argument =>
      let '(func, args) := uncurry function argument in atom_ok func args
  end.

(** What holds of every value a parser method returns. *)
Definition post {A} (m : M A) (P : A -> Prop) : Prop :=
  forall toks a rest, m toks = OK (a, rest) -> P a.

(** The same, of a single expression, of a list and of an optional list. *)
Definition Ok (e : Expression) : Prop := arity_ok e = true.
Definition Oks (l : list Expression) : Prop := forallb arity_ok l = true.
Definition OksOpt (o : option (list Expression)) : Prop :=
  match o with
  | Some l => Oks l
  | None => True
  end.

(** ** Notions for the compound-noun rewrite *)

(** [func(arg1)(arg2)...]: the chain [uncurry] takes apart. *)
Definition apply_args (func : Expression) (args : list Expression) : Expression :=
  fold_left DrtApplicationExpression args func.

(** The walk down the function side of a chain, as [_nn] does it. *)
Definition nn_chain : Expression -> Result Expression :=
  fix chain (function : Expression) : Result Expression :=
    match function with
    | DrtApplicationExpression function' argument' =>
        accum <~ chain function' ;;
        arg <~ _nn argument' ;;
        OK (DrtApplicationExpression accum arg)
    | _ => _nn function
    end.

(** The trees of the specification's data model: every application chain
    is an atom, a variable expression applied to variable expressions. *)
Fixpoint atom_shaped (e : Expression) : bool :=
  match e with
  | DRS _ conds => forallb atom_shaped conds
  | DrtNegatedExpression term => atom_shaped term
  | DrtLambdaExpression _ term => atom_shaped term
  | BinaryExpression _ first second => atom_shaped first && atom_shaped second
  | DrtVariableExpression _ => true
  | DrtApplicationExpression function argument =>
      let '(func, args) := uncurry function argument in
      is_variable_expression func && forallb is_variable_expression args
  end.

(** Every atom whose predicate is named [r_nn_2] has two arguments. *)
Fixpoint nn_binary (e : Expression) : bool :=
  match e with
  | DRS _ conds => forallb nn_binary conds
  | DrtNegatedExpression term => nn_binary term
  | DrtLambdaExpression _ term => nn_binary term
  | BinaryExpression _ first second => nn_binary first && nn_binary second
  | DrtVariableExpression _ => true
  | DrtApplicationExpression function argument =>
      let '(func, args) := uncurry function argument in
      match variable_name func with
      | OK func_name =>
          if String.eqb func_name "r_nn_2" then (length args =? 2)%nat else true
      | _ => true
      end
  end.

(** The predicate names of the atoms of a tree, left to right. *)
Fixpoint atom_preds (e : Expression) : list string :=
  match e with
  | DRS _ conds => flat_map atom_preds conds
  | DrtNegatedExpression term => atom_preds term
  | DrtLambdaExpression _ term => atom_preds term
  | BinaryExpression _ first second => atom_preds first ++ atom_preds second
  | DrtVariableExpression _ => []
  | DrtApplicationExpression function argument =>
      match fst (uncurry function argument) with
      | DrtVariableExpression pred => [name pred]
      | _ => []
      end
  end.

(** The compound-noun folding in the words of the specification: a binary
    atom whose predicate is named [r_nn_2] becomes the equality of its two
    arguments, where it stands; boxes, negations, lambda bodies and binary
    expressions are rewritten inside; nothing else changes. *)
Fixpoint fold_nn (e : Expression) : Expression :=
  match e with
  | DRS refs conds => DRS refs (map fold_nn conds)
  | DrtNegatedExpression term => DrtNegatedExpression (fold_nn term)
  | DrtLambdaExpression variable term => DrtLambdaExpression variable (fold_nn term)
  | BinaryExpression cls first second => BinaryExpression cls (fold_nn first) (fold_nn second)
  | DrtVariableExpression _ => e
  | DrtApplicationExpression
      (DrtApplicationExpression (DrtVariableExpression pred) arg1) arg2 =>
      if String.eqb (name pred) "r_nn_2"
      then BinaryExpression DrtEqualityExpression arg1 arg2
      else e
  | DrtApplicationExpression _ _ => e
  end.


(** ** Notions for the demultiplexer *)

Section Reaches.

Variable simplify : Expression -> Expression.
Variable lines : list string.
Variable occur_index_ : bool.
Variable use_disc_id : bool.

(** [reaches i d i' d']: started with [i] and [drs_dict = d], the loop of
    [_parse_to_drs_dict] comes to the test of its condition with [i'] and
    [drs_dict = d']. *)
Inductive reaches : nat -> gmap string Expression -> nat -> gmap string Expression -> Prop :=
| reaches_here i d : reaches i d i d
| reaches_next i d i' d' i'' d'' :
    (i < length lines)%nat ->
    step simplify lines occur_index_ use_disc_id i d = OK (i', d') ->
    reaches i' d' i'' d'' ->
    reaches i d i'' d''.

End Reaches.

(** The discourse identifier [id] stands on some [id(] line of the output. *)
Definition appears (lines : list string) (id : string) : Prop :=
  exists line comma_idx,
    In line lines /\ Py.startswith line "id(" = true /\
    discourse_id_of line = OK (id, comma_idx).

(** A batch whose first discourse is malformed (its box lacks the list of
    conditions) and whose second is well-formed. *)
Definition malformed_then_good : string :=
  boxer_output [discourse_block "1" "1" "drs([[1001]:_G1])";
                discourse_block "2" "2" dog_term].

(** The same batch with the two discourses in the other order. *)
Definition good_then_malformed : string :=
  boxer_output [discourse_block "2" "2" dog_term;
                discourse_block "1" "1" "drs([[1001]:_G1])"].

(** ** Notions for the bounds of the recursion *)

(** On a stream of fewer than [k] unread tokens, [m] does not run out of
    fuel and leaves no more tokens than it found. *)
Definition safe {A} (m : M A) (k : nat) : Prop :=
  forall toks, (length toks < k)%nat ->
    match m toks with
    | OK (_, rest) => (length rest <= length toks)%nat
    | Raise _ => True
    | OutOfFuel => False
    end.

(** The same, and [m] reads at least one token when it returns. *)
Definition strict {A} (m : M A) (k : nat) : Prop :=
  forall toks, (length toks < k)%nat ->
    match m toks with
    | OK (_, rest) => (length rest < length toks)%nat
    | Raise _ => True
    | OutOfFuel => False
    end.

(** * Further notions: what the additional properties are stated with *)

(** ** Further notions *)

(** The characters [_format_pred_name] keeps. *)
Definition name_char (c : ascii) : bool :=
  (Ascii.leb "A" c && Ascii.leb c "Z")
  || (Ascii.leb "a" c && Ascii.leb c "z")
  || (Ascii.leb "0" c && Ascii.leb c "9")
  || Ascii.eqb c "_".

(** Tokens with a comma between each two. *)
Fixpoint comma_separated (toks : list string) : list string :=
  match toks with
  | [] => []
  | [t] => [t]
  | t :: toks' => t :: "," :: comma_separated toks'
  end.

(** The pair an index decodes to. *)
Definition decode (base_index : Z) : Z * Z := (sent_index base_index, word_index base_index).

(** What [_make_atom] returns for a predicate name and argument tokens:
    the chain of applications of the predicate's variable expression to the
    arguments' variable expressions. *)
Definition var_atom (pred : string) (args : list string) : Expression :=
  apply_args (DrtVariableExpression (_make_Variable pred))
             (map (fun arg => DrtVariableExpression (_make_Variable arg)) args).

(** [il] is the token sequence of an index annotation [[...]:]. *)
Definition index_annotation (il : list string) : Prop :=
  forall rest, exists indices, _parse_index_list (il ++ rest) = OK (indices, rest).

(** The conditions of a [date] term after its marker atom. *)
Definition date_conditions (arg pol year month day : string) : list Expression :=
  (if String.eqb pol "+" then [var_atom "r_pol_2" [arg; "pos"]]
   else if String.eqb pol "-" then [var_atom "r_pol_2" [arg; "neg"]]
   else [])
  ++ (if String.eqb year "XXXX" then []
      else [var_atom "r_year_2" [arg; Py.replace year ":" "_"]])
  ++ (if String.eqb month "XX" then [] else [var_atom "r_month_2" [arg; month]])
  ++ (if String.eqb day "XX" then [] else [var_atom "r_day_2" [arg; day]]).




Definition eq_condition (p : string * string) : Expression :=
  BinaryExpression DrtEqualityExpression
    (DrtVariableExpression (_make_Variable (fst p)))
    (DrtVariableExpression (_make_Variable (snd p))).

(** The name of [v] does not begin with the prefix [_G] of the external
    tool's internal variables. *)
Definition clean (v : Var) : bool := negb (Py.startswith (name v) "_G").

(** No variable of the tree (referent, bound variable, predicate or
    argument) has a name that begins with [_G]. *)
Fixpoint vars_clean (e : Expression) : bool :=
  match e with
  | DRS refs conds => forallb clean refs && forallb vars_clean conds
  | DrtNegatedExpression term => vars_clean term
  | DrtLambdaExpression variable term => clean variable && vars_clean term
  | BinaryExpression _ first second => vars_clean first && vars_clean second
  | DrtVariableExpression variable => clean variable
  | DrtApplicationExpression function argument => vars_clean function && vars_clean argument
  end.

(** [P] holds of every expression of an optional list. *)
Definition ForallOpt (P : Expression -> Prop) (o : option (list Expression)) : Prop :=
  match o with
  | Some l => Forall P l
  | None => True
  end.

(** ** Boxer: the entry points built on the batch call *)

Section Interpret.

Variable simplify : Expression -> Expression.
Variable run_boxer : list (list string) -> list string -> Result string.

(** [l[0]] *)
Definition first_item {A} (l : list A) : Result A := or_raise (l !! 0%nat) IndexError.

(** [Boxer.interpret] *)
Definition interpret (input : string) (occur_index : bool) (discourse_id : option string)
  : Result (option Expression) :=
  let discourse_ids :=
    match discourse_id with
    | Some discourse_id => Some [discourse_id]
    | None => None
    end in
  results <~ batch_interpret_multisentence simplify run_boxer [[input]]
               occur_index discourse_ids ;;
  first_item results.

(** [Boxer.interpret_multisentence] *)
Definition interpret_multisentence (input : list string) (occur_index : bool)
  (discourse_id : option string) : Result (option Expression) :=
  let discourse_ids :=
    match discourse_id with
    | Some discourse_id => Some [discourse_id]
    | None => None
    end in
  results <~ batch_interpret_multisentence simplify run_boxer [input]
               occur_index discourse_ids ;;
  first_item results.

(** [Boxer.batch_interpret] *)
Definition batch_interpret (inputs : list string) (occur_index : bool)
  (discourse_ids : option (list string)) : Result (list (option Expression)) :=
  batch_interpret_multisentence simplify run_boxer (map (fun input => [input]) inputs)
    occur_index discourse_ids.

End Interpret.

(** The identifier a call for one discourse looks its result up under: the
    one given, or [str(0)]. *)
Definition single_id (discourse_id : option string) : string :=
  match discourse_id with
  | Some discourse_id => discourse_id
  | None => Py.str 0
  end.

(** ** Notions for the layout of the external tool's output *)

(** What [_parse_to_drs_dict] does to the text between [id(] and the comma
    before it uses it as a key: a pair of enclosing single quotes is taken
    off; the empty text has no first character. *)
Definition unquote (discourse_id : string) : Result string :=
  c0 <~ or_raise (Py.first_char discourse_id) IndexError ;;
  let quoted :=
    Ascii.eqb c0 "'" &&
    match Py.last_char discourse_id with
    | Some c => Ascii.eqb c "'"
    | None => false
    end in
  OK (if quoted then Py.strip_ends discourse_id else discourse_id).

(** One discourse in the output: the [id(] line, three lines, the [sem(]
    header, three lines, the line that ends the term, and the lines up to
    the next discourse. *)
Record Block := {
  blk_id : string;
  blk_drs_id : string;
  blk_tail : string;
  blk_fill1 : list string;
  blk_header : string;
  blk_fill2 : list string;
  blk_term : string;
  blk_after : list string
}.

Definition lines_of (b : Block) : list string :=
  ("id(" +:+ blk_id b +:+ "," +:+ blk_drs_id b +:+ ")" +:+ blk_tail b)
  :: blk_fill1 b
  ++ ("sem(" +:+ blk_drs_id b +:+ "," +:+ blk_header b)
  :: blk_fill2 b
  ++ (blk_term b +:+ ").")
  :: blk_after b.

Definition no_id_line (line : string) : bool := negb (Py.startswith line "id(").

Definition absent (c : ascii) (s : string) : bool :=
  match Py.index s c with
  | Some _ => false
  | None => true
  end.

Definition well_formed (b : Block) : bool :=
  absent "," (blk_id b) && absent ")" (blk_id b) && absent ")" (blk_drs_id b)
  && (length (blk_fill1 b) =? 3)%nat && (length (blk_fill2 b) =? 3)%nat
  && forallb no_id_line (blk_after b).

(** The entry a well-formed block adds to the dictionary. *)
Definition read_block (simplify : Expression -> Expression) (occur_index_ use_disc_id : bool)
  (drs_dict : gmap string Expression) (b : Block) : Result (gmap string Expression) :=
  discourse_id_ <~ unquote (blk_id b) ;;
  drs <~ parse {| occur_index := occur_index_;
                  discourse_id := if use_disc_id then Some discourse_id_ else None |}
               (Py.strip (blk_term b)) ;;
  drs <~ _clean_drs (simplify drs) ;;
  OK (<[discourse_id_ := drs]> drs_dict).

Fixpoint read_blocks (simplify : Expression -> Expression) (occur_index_ use_disc_id : bool)
  (drs_dict : gmap string Expression) (blocks : list Block)
  : Result (gmap string Expression) :=
  match blocks with
  | [] => OK drs_dict
  | b :: blocks' =>
      drs_dict' <~ read_block simplify occur_index_ use_disc_id drs_dict b ;;
      read_blocks simplify occur_index_ use_disc_id drs_dict' blocks'
  end.

(** An output whose [id(] line names the structure [2] and whose header,
    four lines below, names [1]. *)
Definition mismatched_header : string :=
  boxer_output [[ "id(1,2)."; ""; "%%% discourse 1"; ""; "sem(1,";
                  "    [word],"; "    [pos],"; "    [ne],";
                  "    " +:+ dog_term +:+ " )." ]].

(** The conditions of a [time] term after its marker atom. *)
Definition time_conditions (arg hour min sec : string) : list Expression :=
  (if String.eqb hour "XX" then [] else [var_atom "r_hour_2" [arg; hour]])
  ++ (if String.eqb min "XX" then [] else [var_atom "r_min_2" [arg; min]])
  ++ (if String.eqb sec "XX" then [] else [var_atom "r_sec_2" [arg; sec]]).

(** The tokens of a [rel] condition after its keyword, and the atom the
    parser builds for it. *)
Definition rel_tokens (arg1 arg2 rel_name sense : string) : list string :=
  ["("; arg1; ","; arg2; ","; rel_name; ","; sense; ")"].

Definition rel_atom (arg1 arg2 rel_name : string) : Expression :=
  var_atom ("r_" +:+ _format_pred_name rel_name +:+ "_2") [arg1; arg2].

(** An output in which a second [id(] line stands among the eight lines
    under the first. *)
Definition id_line_under_id_line : string :=
  boxer_output [[ "id(a,1)."; "id(zz,9)."; "%%% discourse 1"; ""; "sem(1,";
                  "    [word],"; "    [pos],"; "    [ne],";
                  "    " +:+ dog_term +:+ " )." ]].

(** * Properties *)

(** ** Sanity checks on concrete inputs *)

Example py_slice : Py.slice "id('a',7)." 3 6 = "'a'".
Proof. reflexivity. Qed.

Example py_split :
  Py.split ("a" +:+ String newline "" +:+ "b" +:+ String newline "") newline = ["a"; "b"; ""].
Proof. reflexivity. Qed.

Example py_strip : Py.strip "  drs( x )  " = "drs( x )".
Proof. reflexivity. Qed.

Example py_str : Py.str (-12) = "-12" /\ Py.str 0 = "0" /\ Py.str 3004 = "3004".
Proof. repeat split. Qed.

Example py_int :
  Py.int "3004" = Some 3004%Z /\ Py.int "-7" = Some (-7)%Z /\
  Py.int "x1" = None /\ Py.int "-" = None.
Proof. repeat split. Qed.

Example process_pred :
  process "drs([[1001]:_G1], [[1002]:pred(_G1, dog, n, 0)])" (Bare "")
  = OK ["drs"; "("; "["; "["; "1001"; "]"; ":"; "_G1"; "]"; ","; "["; "[";
        "1002"; "]"; ":"; "pred"; "("; "_G1"; ","; "dog"; ","; "n"; ","; "0";
        ")"; "]"; ")"].
Proof. reflexivity. Qed.

Example process_quoted :
  process "date([]: +, []:'XXXX', [1004]:'04')" (Bare "")
  = OK ["date"; "("; "["; "]"; ":"; "+"; ","; "["; "]"; ":"; "XXXX"; ",";
        "["; "1004"; "]"; ":"; "04"; ")"]
  /\ process "pred(x, 'ab" (Bare "") = Raise TokenizationError.
Proof. split; reflexivity. Qed.

Example parse_dog :
  parse default_parser "drs([[1001]:x0],[[1002]:pred(x0,dog,n,0)])"
  = OK (DRS [Variable_ "x0"] [atom "n_dog_1" ["x0"]]).
Proof. vm_compute. reflexivity. Qed.

Example parse_dog_indexed :
  parse {| occur_index := true; discourse_id := Some "t" |}
        "drs([[1001]:_G1],[[3004]:pred(_G1,see,v,0)])"
  = OK (DRS [Variable_ "z1"] [atom "v_see_t_s2_w3_1" ["z1"]]).
Proof. vm_compute. reflexivity. Qed.

Example parse_timex :
  parse default_parser "drs([],[[]:timex(x0,date([]: +, []:'XXXX', [1004]:'04', []:'XX'))])"
  = OK (DRS [] [atom "r_date_1" ["x0"]; atom "r_pol_2" ["x0"; "pos"]; atom "r_month_2" ["x0"; "04"]]).
Proof. vm_compute. reflexivity. Qed.

Example parse_whq :
  parse default_parser "drs([],[[]:whq([des:per num:cou],drs([],[]),_G2,drs([],[]))])"
  = OK (DRS [] [BinaryExpression ConcatenationDRS
                  (DRS [] [atom "r_per_1" ["z2"]; atom "r_number_1" ["z2"]; atom "r_count_1" ["z2"]])
                  (BinaryExpression ConcatenationDRS (DRS [] []) (DRS [] []))]).
Proof. vm_compute. reflexivity. Qed.

Example parse_unknown_condition :
  parse default_parser "drs([],[[]:foo(x0)])" = Raise (UnexpectedTokenException "foo" None).
Proof. vm_compute. reflexivity. Qed.

Example nn_folds :
  _nn (DRS [] [atom "r_nn_2" ["x0"; "x1"]; atom "n_dog_1" ["x0"]])
  = OK (DRS [] [BinaryExpression DrtEqualityExpression
                  (DrtVariableExpression (Variable_ "x0"))
                  (DrtVariableExpression (Variable_ "x1"));
                atom "n_dog_1" ["x0"]]).
Proof. reflexivity. Qed.

Example nn_asserts : _nn (atom "r_nn_2" ["x0"]) = Raise AssertionError.
Proof. reflexivity. Qed.

Example batch_two :
  batch_interpret_multisentence simplify (fun _ _ => OK two_discourses)
    [["a dog"]; ["x y"]; ["skipped"]] false (Some ["d2"; "d3"; "d1"])
  = OK [Some folded_drs; None; Some (DRS [Variable_ "z1"] [atom "n_dog_d1_1" ["z1"]])].
Proof. vm_compute. reflexivity. Qed.

(** ** Strings *)

Lemma substring_all (s : string) : substring 0 (String.length s) s = s.
Proof. induction s as [|c s IH]; simpl; [reflexivity | now rewrite IH]. Qed.

Lemma slice_from_2 (a b : ascii) (r : string) :
  Py.slice_from (String a (String b r)) 2 = r.
Proof. unfold Py.slice_from. simpl. rewrite Nat.sub_0_r. apply substring_all. Qed.

Lemma startswith_G (s : string) :
  Py.startswith s "_G" = true -> exists r, s = String "_" (String "G" r).
Proof.
  unfold Py.startswith. intros H. apply prefix_correct in H.
  destruct s as [|a [|b r]]; simpl in H; try discriminate.
  injection H as -> ->. now exists r.
Qed.

Lemma startswith_G_cons (r : string) : Py.startswith (String "_" (String "G" r)) "_G" = true.
Proof. unfold Py.startswith. apply prefix_correct. simpl. now destruct r. Qed.

Lemma make_Variable_rewritten (s : string) : _make_Variable s = Variable_ (rewritten s).
Proof.
  unfold _make_Variable. destruct (Py.startswith s "_G") eqn:E.
  - destruct (startswith_G s E) as [r ->]. now rewrite slice_from_2.
  - f_equal. destruct s as [|a [|b r]]; try reflexivity.
    unfold rewritten.
    destruct (Ascii.eqb_spec a "_") as [->|]; [|reflexivity].
    destruct (Ascii.eqb_spec b "G") as [->|]; [|reflexivity].
    now rewrite startswith_G_cons in E.
Qed.

(** ** C9: the variable constructor *)

(** C9.  [_make_Variable] turns a name that begins with [_G] into [z]
    followed by the rest of the name and leaves every other name as it is,
    also one that begins with [z]; so two tokens give equal [Variable]s
    exactly when their rewritten names are equal. *)
Theorem make_Variable_rewrites_internal_prefix :
  (forall rest, _make_Variable ("_G" +:+ rest) = Variable_ ("z" +:+ rest)) /\
  (forall s, Py.startswith s "_G" = false -> _make_Variable s = Variable_ s) /\
  (forall rest, _make_Variable ("z" +:+ rest) = Variable_ ("z" +:+ rest)) /\
  (forall a b, _make_Variable a = _make_Variable b <-> rewritten a = rewritten b) /\
  (forall a b, Var_eqb (_make_Variable a) (_make_Variable b) = true
               <-> rewritten a = rewritten b).
Proof.
  split; [|split; [|split; [|split]]].
  - intros rest. rewrite make_Variable_rewritten. reflexivity.
  - intros s E. unfold _make_Variable. now rewrite E.
  - intros rest. rewrite make_Variable_rewritten. now destruct rest.
  - intros a b. rewrite !make_Variable_rewritten. split; congruence.
  - intros a b. rewrite !make_Variable_rewritten. unfold Var_eqb. simpl.
    apply String.eqb_eq.
Qed.

Lemma make_Variable_rewrites_internal_prefix_witness :
  Py.startswith "x0" "_G" = false /\ _make_Variable "x0" = Variable_ "x0" /\
  _make_Variable "_G12" = _make_Variable "z12".
Proof.
  split; [reflexivity|]. split.
  - apply (proj1 (proj2 make_Variable_rewrites_internal_prefix) "x0"). reflexivity.
  - apply (proj1 (proj2 (proj2 (proj2 make_Variable_rewrites_internal_prefix))) "_G12" "z12").
    reflexivity.
Defined.

(** ** Running the parser monad *)

Arguments while_ : simpl never.
Arguments bind : simpl never.
Arguments ret : simpl never.
Arguments raise : simpl never.
Arguments lift : simpl never.
Arguments token : simpl never.
Arguments token0 : simpl never.
Arguments expect : simpl never.

Lemma while_S {St} (n : nat) (cond : M bool) (body : St -> M St) (s : St) :
  while_ (S n) cond body s
  = bind cond (fun c => if (c : bool) then bind (body s) (while_ n cond body) else ret s).
Proof. reflexivity. Qed.

Lemma bind_OK {A B} (m : M A) (k : A -> M B) toks a toks' :
  m toks = OK (a, toks') -> bind m k toks = k a toks'.
Proof. unfold bind. now intros ->. Qed.

Lemma bind_Raise {A B} (m : M A) (k : A -> M B) toks e :
  m toks = Raise e -> bind m k toks = Raise e.
Proof. unfold bind. now intros ->. Qed.

Lemma run_ret {A} (a : A) toks : ret a toks = OK (a, toks).
Proof. reflexivity. Qed.

Lemma run_raise {A} e toks : @raise A e toks = Raise e.
Proof. reflexivity. Qed.

Lemma run_bind_ret {A B} (a : A) (k : A -> M B) toks : bind (ret a) k toks = k a toks.
Proof. reflexivity. Qed.

Lemma run_bind_raise {A B} e (k : A -> M B) toks : bind (raise e) k toks = Raise e.
Proof. reflexivity. Qed.

Lemma run_bind_bind {A B C} (m : M A) (f : A -> M B) (g : B -> M C) toks :
  bind (bind m f) g toks = bind m (fun x => bind (f x) g) toks.
Proof. unfold bind. destruct (m toks) as [[a toks']| |]; reflexivity. Qed.

Lemma run_bind_token {B} (k : string -> M B) t toks : bind token k (t :: toks) = k t toks.
Proof. reflexivity. Qed.

Lemma run_bind_token0 {B} (k : string -> M B) t toks :
  bind token0 k (t :: toks) = k t (t :: toks).
Proof. reflexivity. Qed.

Lemma run_bind_expect {B} (k : unit -> M B) t toks : bind (expect t) k (t :: toks) = k tt toks.
Proof.
  unfold expect, assertToken, token, bind. cbv beta iota.
  now rewrite String.eqb_refl.
Qed.

Lemma run_bind_lift {A B} (a : A) (k : A -> M B) toks : bind (lift (OK a)) k toks = k a toks.
Proof. reflexivity. Qed.

Lemma run_bind_lift_raise {A B} e (k : A -> M B) toks : bind (lift (Raise e)) k toks = Raise e.
Proof. reflexivity. Qed.

Lemma run_while_S {St} (n : nat) (cond : M bool) (body : St -> M St) (s : St) toks :
  while_ (S n) cond body s toks
  = bind cond (fun c => if (c : bool) then bind (body s) (while_ n cond body) else ret s) toks.
Proof. reflexivity. Qed.

Lemma run_bind_while {St B} (cond : M bool) (body : St -> M St) (s : St) (k : St -> M B) toks :
  bind (while cond body s) k toks = bind (while_ (S (length toks)) cond body s) k toks.
Proof. reflexivity. Qed.

Lemma run_bind_if {A B} (c : bool) (m1 m2 : M A) (k : A -> M B) toks :
  bind (if c then m1 else m2) k toks = if c then bind m1 k toks else bind m2 k toks.
Proof. now destruct c. Qed.

Lemma run_if {A} (c : bool) (m1 m2 : M A) toks :
  (if c then m1 else m2) toks = if c then m1 toks else m2 toks.
Proof. now destruct c. Qed.

Lemma run_bind_while_S {St B} (n : nat) (cond : M bool) (body : St -> M St) (s : St)
  (k : St -> M B) toks :
  bind (while_ (S n) cond body s) k toks
  = bind cond (fun c => bind (if (c : bool) then bind (body s) (while_ n cond body) else ret s) k) toks.
Proof. rewrite <- run_bind_bind. reflexivity. Qed.

Lemma run_bind_next_is_not {B} (t : string) (k : bool -> M B) tok toks :
  bind (next_is_not t) k (tok :: toks) = k (negb (String.eqb tok t)) (tok :: toks).
Proof. reflexivity. Qed.

Lemma run_bind_swallow_if {B} (t : string) (k : unit -> M B) tok toks :
  bind (swallow_if t) k (tok :: toks)
  = if String.eqb tok t then k tt toks else k tt (tok :: toks).
Proof.
  unfold swallow_if. rewrite run_bind_bind, run_bind_token0.
  destruct (String.eqb tok t); reflexivity.
Qed.

Create Rewrite HintDb run.
#[local] Hint Rewrite @run_bind_next_is_not @run_bind_swallow_if @run_bind_while_S @run_ret @run_raise @run_bind_ret @run_bind_raise @run_bind_bind
  @run_bind_token @run_bind_token0 @run_bind_expect @run_bind_lift @run_bind_lift_raise
  @run_bind_while @run_while_S : run.

Ltac run := repeat progress (autorewrite with run; simpl).

(** ** C6: index decoding *)

Lemma int_str_checked : forallb int_str_ok encodings = true.
Proof. vm_compute. reflexivity. Qed.

Lemma in_encodings (n : Z) : (1001 <= n <= 9999)%Z -> In n encodings.
Proof.
  intros H. apply in_map_iff. exists (Z.to_nat (n - 1001)).
  split; [lia|]. apply in_seq. lia.
Qed.

Lemma int_str (n : Z) : (1001 <= n <= 9999)%Z -> Py.int (Py.str n) = Some n.
Proof.
  intros H. pose proof int_str_checked as C.
  rewrite forallb_forall in C. specialize (C n (in_encodings n H)).
  unfold int_str_ok in C. destruct (Py.int (Py.str n)) as [m|]; [|discriminate C].
  f_equal. now apply Z.eqb_eq.
Qed.

Lemma index_list_single (t : string) (n : Z) (rest : list string) :
  Py.int t = Some n ->
  _parse_index_list ("[" :: t :: "]" :: ":" :: rest)
  = OK ([(sent_index n, word_index n)], rest).
Proof.
  intros Hint.
  assert (Ht : String.eqb t "]" = false).
  { destruct (String.eqb_spec t "]") as [->|]; [discriminate Hint | reflexivity]. }
  unfold _parse_index_list. run.
  rewrite Ht. run. rewrite Hint. run. reflexivity.
Qed.

(** C6.  For every [n] in [1001, 9999], the pair [_parse_index_list]
    decodes from [n], [(n/1000 - 1, n%1000 - 1)], encodes back to [n] as
    [1000*(sentence+1) + (word+1)]; and reading the annotation [[n]:] off
    the token stream gives exactly that pair. *)
Theorem index_decode_encode (n : Z) :
  (1001 <= n <= 9999)%Z ->
  encode (sent_index n) (word_index n) = n /\
  sent_index n = (n / 1000 - 1)%Z /\ word_index n = (n mod 1000 - 1)%Z /\
  forall rest,
    _parse_index_list ("[" :: Py.str n :: "]" :: ":" :: rest)
    = OK ([(sent_index n, word_index n)], rest).
Proof.
  intros H. split; [|split; [reflexivity|split; [reflexivity|]]].
  - unfold encode, sent_index, word_index.
    pose proof (Z.div_mod n 1000). lia.
  - intros rest. apply index_list_single, int_str, H.
Qed.

Lemma index_decode_encode_witness :
  (1001 <= 3004 <= 9999)%Z /\
  encode (sent_index 3004) (word_index 3004) = 3004%Z /\
  _parse_index_list ["["; "3004"; "]"; ":"; "x0"] = OK ([(2, 3)%Z], ["x0"]).
Proof.
  assert (R : (1001 <= 3004 <= 9999)%Z) by lia.
  destruct (index_decode_encode 3004 R) as (E & _ & _ & P).
  split; [exact R | split; [exact E | exact (P ["x0"])]].
Defined.

(** ** C3: the position marker of a predicate name *)

Lemma make_pred_marker (self : BoxerDrsParser) (pos name : string) (p : Z * Z)
  (later : list (Z * Z)) (arity : Z) :
  _make_pred self pos name (p :: later) arity
  = pos +:+ "_" +:+ name +:+ "_"
    +:+ (if truthy (discourse_id self) then default "" (discourse_id self) +:+ "_" else "")
    +:+ (if occur_index self
         then "s" +:+ Py.str (fst p) +:+ "_w" +:+ Py.str (snd p) +:+ "_" else "")
    +:+ Py.str arity.
Proof.
  unfold _make_pred. destruct p as [s w]. simpl.
  destruct (discourse_id self) as [[|c d]|]; reflexivity.
Qed.

Lemma make_pred_no_marker (self : BoxerDrsParser) (pos name : string) (arity : Z) :
  _make_pred self pos name [] arity = "r_" +:+ name +:+ "_" +:+ Py.str arity.
Proof. unfold _make_pred. simpl. destruct (discourse_id self) as [[|c d]|]; reflexivity. Qed.

(** C3.  With occurrence indexing on, the marker [_make_pred] writes for
    the fourth word of the third sentence (index 3004, decoded to the pair
    (2, 3)) is [s2_w3_]: the decoded, zero-based pair, not the one-based
    position [s3_w4_] that the docstring of [BoxerDrsParser] gives for
    this very word. *)
Theorem make_pred_marker_is_zero_based :
  let self := {| occur_index := true; discourse_id := Some "t" |} in
  _parse_index_list ["["; "3004"; "]"; ":"] = OK ([(2, 3)%Z], []) /\
  _make_pred self "v" "see" [(2, 3)%Z] 2 = "v_see_t_s2_w3_2" /\
  _make_pred self "v" "see" [(2, 3)%Z] 2 <> "v_see_t_s3_w4_2".
Proof. cbv zeta. split; [|split]; [vm_compute; reflexivity ..|]. vm_compute. discriminate. Qed.

(** ** C10: the fixed offsets of the demultiplexer *)

(** C10.  There are outputs in which an [id(] line stands fewer than nine
    lines before the end, and on them [_parse_to_drs_dict] fails with
    [IndexError]: at [lines[i+4]] when the header line is missing, at
    [lines[i+8]] when the header is there and the term line is missing.  No
    result map is returned. *)
Theorem demultiplexer_offsets_out_of_range :
  forall boxer_out, In boxer_out [truncated_before_header; truncated_before_term] ->
  exists i line,
    Py.split boxer_out newline !! i = Some line /\
    Py.startswith line "id(" = true /\
    (length (Py.split boxer_out newline) < i + 9)%nat /\
    forall simplify occur_index use_disc_id,
      _parse_to_drs_dict simplify boxer_out occur_index use_disc_id = Raise IndexError.
Proof.
  intros boxer_out [<-|[<-|[]]]; exists 0%nat, "id(a,1).";
    (split; [reflexivity|split; [reflexivity|split; [vm_compute; lia|]]]);
    intros simplify occur_index use_disc_id; vm_compute; reflexivity.
Qed.

Lemma demultiplexer_offsets_out_of_range_witness :
  exists i line,
    Py.split truncated_before_term newline !! i = Some line /\
    Py.startswith line "id(" = true /\
    (length (Py.split truncated_before_term newline) < i + 9)%nat /\
    forall simplify occur_index use_disc_id,
      _parse_to_drs_dict simplify truncated_before_term occur_index use_disc_id
      = Raise IndexError.
Proof.
  apply (demultiplexer_offsets_out_of_range truncated_before_term).
  right. left. reflexivity.
Defined.

(** ** C8: unrecognized condition keywords *)

Lemma handle_condition_unrecognized (self : BoxerDrsParser) (pe : M Expression)
  (tok : string) (indices : list (Z * Z)) (toks : list string) :
  recognized tok = false ->
  handle_condition self pe tok indices toks = OK (None, toks).
Proof.
  unfold recognized, condition_keywords. simpl. intros H.
  repeat match type of H with
         | (_ || _) = false => apply orb_false_elim in H; destruct H as [?E H]
         end.
  unfold handle_condition. now rewrite E, E0, E1, E2, E3, E4, E5, E6, E7, E8, E9.
Qed.

(** C8.  At a condition position, a keyword [handle_condition] has no
    branch for makes [parse_condition] raise [UnexpectedTokenException]
    carrying that token; the loop of [parse_drs] that reads the conditions
    raises the same exception in whatever iteration it meets the keyword,
    whatever it has collected so far, and so does [parse_drs]: the
    condition is not skipped and no box is returned. *)
Theorem unrecognized_condition_fails (self : BoxerDrsParser) (pe : M Expression)
  (indices : list (Z * Z)) (tok : string) (rest : list string) :
  recognized tok = false ->
  parse_condition self pe indices (tok :: rest) = Raise (UnexpectedTokenException tok None) /\
  (forall n conds toks,
     _parse_index_list toks = OK (indices, tok :: rest) ->
     while_ (S n) (next_is_not "]") (parse_drs_cond self pe) conds toks
     = Raise (UnexpectedTokenException tok None)) /\
  (forall toks,
     _parse_index_list toks = OK (indices, tok :: rest) ->
     parse_drs self pe ("(" :: "[" :: "]" :: "," :: "[" :: toks)
     = Raise (UnexpectedTokenException tok None)).
Proof.
  intros H.
  assert (C : parse_condition self pe indices (tok :: rest)
              = Raise (UnexpectedTokenException tok None)).
  { unfold parse_condition. run.
    erewrite bind_OK by (apply handle_condition_unrecognized, H). reflexivity. }
  assert (L : forall n conds toks,
     _parse_index_list toks = OK (indices, tok :: rest) ->
     while_ (S n) (next_is_not "]") (parse_drs_cond self pe) conds toks
     = Raise (UnexpectedTokenException tok None)).
  { intros n conds toks P.
    assert (exists toks', toks = "[" :: toks') as [toks' ->].
    { destruct toks as [|t toks']; [discriminate P|].
      unfold _parse_index_list in P.
      destruct (String.eqb_spec t "[") as [->|Ht]; [now exists toks'|].
      unfold expect, assertToken in P. rewrite run_bind_bind, run_bind_token in P.
      apply String.eqb_neq in Ht. rewrite Ht in P. discriminate P. }
    run. unfold parse_drs_cond. run.
    rewrite (bind_OK _ _ _ _ _ P). run.
    now rewrite (bind_Raise _ _ _ _ C). }
  split; [exact C|]. split; [exact L|].
  intros toks P. unfold parse_drs. run.
  rewrite <- run_bind_while_S.
  now rewrite (bind_Raise _ _ _ _ (L _ [] toks P)).
Qed.

Lemma unrecognized_condition_fails_witness :
  recognized "foo" = false /\
  parse_drs default_parser (parse_Expression default_parser 0)
    ["("; "["; "]"; ","; "["; "["; "1002"; "]"; ":"; "foo"; "("; "x0"; ")"; "]"; ")"]
  = Raise (UnexpectedTokenException "foo" None).
Proof.
  split; [reflexivity|].
  apply (unrecognized_condition_fails default_parser (parse_Expression default_parser 0)
           [(0, 1)%Z] "foo" ["("; "x0"; ")"; "]"; ")"]); reflexivity.
Defined.

(** ** C1: question terms *)

Lemma whq_answers_loop (pairs : list (string * string)) :
  forall (n : nat) (acc : list string) (rest : list string),
    Forall (fun p => fst p <> "]") pairs ->
    (length pairs < n)%nat ->
    while_ n (next_is_not "]") _handle_whq_answer acc (answer_tokens pairs ++ "]" :: rest)
    = OK (acc ++ answer_type_names pairs, "]" :: rest).
Proof.
  induction pairs as [|[cat ans] pairs IH]; intros n acc rest Hp Hn;
    (destruct n as [|n]; [simpl in Hn; lia|]).
  - simpl. run. now rewrite app_nil_r.
  - inversion Hp as [|? ? Hc Hp']; subst. simpl in Hc, Hn.
    apply String.eqb_neq in Hc.
    specialize (IH n). unfold answer_type_names, answer_types in *. simpl.
    run. rewrite Hc. simpl. unfold _handle_whq_answer at 1. run.
    destruct (String.eqb cat "des"); [|destruct (String.eqb cat "num")]; run.
    + rewrite IH by (assumption || lia). now rewrite <- app_assoc.
    + destruct (String.eqb ans "cou"); run;
        (rewrite IH by (assumption || lia)); now rewrite <- !app_assoc.
    + rewrite IH by (assumption || lia). now rewrite <- app_assoc.
Qed.

Lemma answer_tokens_length (pairs : list (string * string)) :
  length (answer_tokens pairs) = (3 * length pairs)%nat.
Proof. induction pairs as [|p pairs IH]; simpl; [reflexivity|]. rewrite IH. lia. Qed.

Lemma whq_atoms (self : BoxerDrsParser) (ref : Var) (types : list string) :
  _handle_whq_atoms self (DrtVariableExpression ref) types
  = OK (map (fun t => type_atom "r" t ref) types).
Proof.
  unfold _handle_whq_atoms. induction types as [|t types IH]; [reflexivity|].
  simpl. simpl in IH. rewrite IH. rewrite make_pred_no_marker. reflexivity.
Qed.

(** C1 (amended).  A [whq] term gives
    [Concatenation(typeDrs, Concatenation(restriction, body))], where
    [typeDrs] is a box with no referents whose conditions are, for each
    answer-type name of the [Category:Answer] list in order, the unary atom
    [r_<type>_1] applied to the answer variable: [_make_pred] is called with
    an empty index list and so puts the relation marker [r] in place of the
    [n] it is handed. *)
Theorem whq_builds_concatenation (self : BoxerDrsParser) (pe : M Expression)
  (indices : list (Z * Z)) (pairs : list (string * string))
  (toks1 toks2 rest : list string) (d1 d2 : Expression) (ref : string) :
  Forall (fun p => fst p <> "]") pairs ->
  pe toks1 = OK (d1, "," :: ref :: "," :: toks2) ->
  pe toks2 = OK (d2, ")" :: rest) ->
  _handle_whq self pe indices ("(" :: "[" :: answer_tokens pairs ++ "]" :: "," :: toks1)
  = OK (BinaryExpression ConcatenationDRS
          (DRS [] (map (fun t => type_atom "r" t (_make_Variable ref))
                       (answer_type_names pairs)))
          (BinaryExpression ConcatenationDRS d1 d2),
        rest).
Proof.
  intros Hp H1 H2. unfold _handle_whq.
  rewrite run_bind_expect, run_bind_expect, run_bind_while.
  assert (Hn : (length pairs < S (length (answer_tokens pairs ++ "]" :: "," :: toks1)))%nat).
  { rewrite length_app, answer_tokens_length. lia. }
  rewrite (bind_OK _ _ _ _ _ (whq_answers_loop pairs _ [] _ Hp Hn)).
  run. rewrite (bind_OK _ _ _ _ _ H1). run. rewrite (bind_OK _ _ _ _ _ H2). run.
  rewrite whq_atoms. run. reflexivity.
Qed.

Lemma whq_builds_concatenation_witness :
  Forall (fun p : string * string => fst p <> "]") [("des", "per"); ("num", "cou")] /\
  _handle_whq default_parser (parse_Expression default_parser 1) []
    ["("; "["; "des"; ":"; "per"; "num"; ":"; "cou"; "]"; ",";
     "drs"; "("; "["; "]"; ","; "["; "]"; ")"; ","; "_G2"; ",";
     "drs"; "("; "["; "]"; ","; "["; "]"; ")"; ")"]
  = OK (BinaryExpression ConcatenationDRS
          (DRS [] [atom "r_per_1" ["z2"]; atom "r_number_1" ["z2"]; atom "r_count_1" ["z2"]])
          (BinaryExpression ConcatenationDRS (DRS [] []) (DRS [] [])),
        []).
Proof.
  assert (Hp : Forall (fun p : string * string => fst p <> "]")
                      [("des", "per"); ("num", "cou")]).
  { repeat constructor; discriminate. }
  split; [exact Hp|].
  apply (whq_builds_concatenation default_parser (parse_Expression default_parser 1) []
           [("des", "per"); ("num", "cou")]
           ["drs"; "("; "["; "]"; ","; "["; "]"; ")"; ","; "_G2"; ",";
            "drs"; "("; "["; "]"; ","; "["; "]"; ")"; ")"]
           ["drs"; "("; "["; "]"; ","; "["; "]"; ")"; ")"] []
           (DRS [] []) (DRS [] []) "_G2" Hp); reflexivity.
Defined.

(** C1, as stated, fails: the atom built for the answer type [per] has the
    predicate [r_per_1], not [n_per_1]. *)
Lemma whq_atom_is_not_n :
  parse default_parser whq_term
  = OK (DRS [] [BinaryExpression ConcatenationDRS
                  (DRS [] [type_atom "r" "per" (Variable_ "z2")])
                  (BinaryExpression ConcatenationDRS (DRS [] []) (DRS [] []))]) /\
  parse default_parser whq_term
  <> OK (DRS [] [BinaryExpression ConcatenationDRS
                   (DRS [] [type_atom "n" "per" (Variable_ "z2")])
                   (BinaryExpression ConcatenationDRS (DRS [] []) (DRS [] []))]).
Proof. split; [vm_compute; reflexivity | vm_compute; discriminate]. Qed.

(** ** C7: the arity of atoms *)

Lemma post_ret {A} (a : A) (P : A -> Prop) : P a -> post (ret a) P.
Proof. intros H toks a' rest E. inversion E. now subst. Qed.

Lemma post_raise {A} (e : Exception) (P : A -> Prop) : post (raise e) P.
Proof. intros toks a rest E. discriminate E. Qed.

Lemma post_lift {A} (r : Result A) (P : A -> Prop) :
  (forall a, r = OK a -> P a) -> post (lift r) P.
Proof.
  intros H toks a rest E. unfold lift in E. destruct r; try discriminate E.
  inversion E. subst. now apply H.
Qed.

Lemma post_bind {A B} (m : M A) (k : A -> M B) (Q : A -> Prop) (P : B -> Prop) :
  post m Q -> (forall a, Q a -> post (k a) P) -> post (bind m k) P.
Proof.
  intros Hm Hk toks b rest E. unfold bind in E.
  destruct (m toks) as [[a toks']| |] eqn:Em; try discriminate E.
  exact (Hk a (Hm _ _ _ Em) _ _ _ E).
Qed.

Lemma post_bind_any {A B} (m : M A) (k : A -> M B) (P : B -> Prop) :
  (forall a, post (k a) P) -> post (bind m k) P.
Proof.
  intros Hk. apply post_bind with (Q := fun _ => True); [easy | intros a _; apply Hk].
Qed.

Lemma post_if {A} (c : bool) (m1 m2 : M A) (P : A -> Prop) :
  post m1 P -> post m2 P -> post (if c then m1 else m2) P.
Proof. now destruct c. Qed.

Lemma post_while_ {A} (n : nat) (cond : M bool) (body : A -> M A) (P : A -> Prop) :
  (forall s, P s -> post (body s) P) -> forall s, P s -> post (while_ n cond body s) P.
Proof.
  intros Hb. induction n as [|n IH]; intros s Hs.
  - intros toks a rest E. discriminate E.
  - rewrite (while_S n). apply post_bind_any. intros [|].
    + eapply post_bind; [apply (Hb s Hs) | exact IH].
    + now apply post_ret.
Qed.

Lemma post_while {A} (cond : M bool) (body : A -> M A) (P : A -> Prop) :
  (forall s, P s -> post (body s) P) -> forall s, P s -> post (while cond body s) P.
Proof. intros Hb s Hs toks a rest E. exact (post_while_ _ _ _ _ Hb s Hs _ _ _ E). Qed.


Lemma final_char_app (a b : string) (d : ascii) :
  final_char b = Some d -> final_char (a +:+ b) = Some d.
Proof. intros H. induction a as [|c a IH]; simpl; [exact H | now rewrite IH]. Qed.

Lemma final_char_rewritten (s : string) (d : ascii) :
  (3 <= String.length s)%nat -> final_char s = Some d -> final_char (rewritten s) = Some d.
Proof.
  destruct s as [|a [|b [|c r]]]; simpl; try lia. intros _.
  destruct (Ascii.eqb a "_" && Ascii.eqb b "G"); simpl; [|easy].
  destruct (final_char r); congruence.
Qed.

Lemma length_append (a b : string) :
  String.length (a +:+ b) = (String.length a + String.length b)%nat.
Proof. induction a as [|c a IH]; simpl; [reflexivity | now rewrite IH]. Qed.

Lemma final_char_nonempty (s : string) (d : ascii) :
  final_char s = Some d -> (1 <= String.length s)%nat.
Proof. destruct s; simpl; [discriminate | lia]. Qed.

(** Every predicate name of the parser has the form
    [<pos>_<name>_<tail>], and keeps its last character through
    [_make_Variable]. *)
Lemma pred_name_final (pos mid tail : string) (d : ascii) :
  final_char tail = Some d ->
  final_char (name (_make_Variable (pos +:+ "_" +:+ mid +:+ "_" +:+ tail))) = Some d.
Proof.
  intros H. rewrite make_Variable_rewritten. simpl name.
  apply final_char_rewritten.
  - rewrite !length_append. apply final_char_nonempty in H. simpl. lia.
  - now repeat apply final_char_app.
Qed.

Lemma make_pred_final (self : BoxerDrsParser) (pos name_ : string) (indices : list (Z * Z)) :
  final_char (name (_make_Variable (_make_pred self pos name_ indices 1))) = Some "1"%char.
Proof. unfold _make_pred. apply pred_name_final. now repeat apply final_char_app. Qed.

Lemma Oks_app (l1 l2 : list Expression) : Oks l1 -> Oks l2 -> Oks (l1 ++ l2).
Proof. unfold Oks. rewrite forallb_app. now intros -> ->. Qed.

Lemma Oks_one (e : Expression) : Ok e -> Oks [e].
Proof. unfold Ok, Oks. simpl. now intros ->. Qed.

Lemma atom_final_ok (pred : string) (args : list Arg) (d : ascii) (e : Expression) :
  final_char (name (_make_Variable pred)) = Some d ->
  Py.isdigit d = true ->
  (nat_of_ascii d - 48)%nat = length args ->
  (length args <= 3)%nat ->
  Forall (fun a => match a with Str _ => True | VarArg _ => True | Expr e => is_variable_expression e = true end) args ->
  _make_atom (Str pred) args = OK e -> Ok e.
Proof.
  intros Hf Hd Hn Hl Ha E. unfold Ok.
  assert (K : arity_digit (name (_make_Variable pred)) = Some (length args)).
  { unfold arity_digit. now rewrite Hf, Hd, Hn. }
  destruct args as [|a1 [|a2 [|a3 [|a4 args]]]]; simpl in Hl; try lia;
    cbn [_make_atom _make_atom_args as_variable_expression rbind] in E.
  - injection E as <-. reflexivity.
  - inversion Ha as [|? ? H1 _]; subst.
    destruct a1 as [s|v|x]; [| |destruct x; try discriminate H1]; simpl in E;
      injection E as <-; cbn [arity_ok uncurry uncurry_loop atom_ok]; rewrite K; reflexivity.
  - inversion Ha as [|? ? H1 Ha']; subst. inversion Ha' as [|? ? H2 _]; subst.
    destruct a1 as [s|v|x]; [| |destruct x; try discriminate H1];
    (destruct a2 as [s2|v2|x2]; [| |destruct x2; try discriminate H2]); simpl in E;
      injection E as <-; cbn [arity_ok uncurry uncurry_loop atom_ok]; rewrite K; reflexivity.
  - inversion Ha as [|? ? H1 Ha']; subst. inversion Ha' as [|? ? H2 Ha'']; subst.
    inversion Ha'' as [|? ? H3 _]; subst.
    destruct a1 as [s|v|x]; [| |destruct x; try discriminate H1];
    (destruct a2 as [s2|v2|x2]; [| |destruct x2; try discriminate H2]);
    (destruct a3 as [s3|v3|x3]; [| |destruct x3; try discriminate H3]); simpl in E;
      injection E as <-; cbn [arity_ok uncurry uncurry_loop atom_ok]; rewrite K; reflexivity.
Qed.

Lemma post_atom (pred : string) (args : list Arg) (d : ascii) :
  final_char (name (_make_Variable pred)) = Some d ->
  Py.isdigit d = true ->
  (nat_of_ascii d - 48)%nat = length args ->
  (length args <= 3)%nat ->
  Forall (fun a => match a with
                   | Expr e => is_variable_expression e = true
                   | _ => True
                   end) args ->
  post (lift (_make_atom (Str pred) args)) Ok.
Proof. intros. apply post_lift. intros e E. eapply atom_final_ok; eauto. Qed.

Ltac binds :=
  repeat match goal with
         | |- post (bind ?m _) _ =>
             lazymatch m with
             | token => idtac
             | expect _ => idtac
             | _parse_index_list => idtac
             | swallow_if _ => idtac
             end;
             apply post_bind_any; intros ?
         end.

Ltac ifs :=
  repeat match goal with
         | |- post (if _ then _ else _) _ => apply post_if
         end.

Ltac atom_ok_tac d :=
  apply post_atom with d;
  [ first [ apply make_pred_final | reflexivity | idtac ]
  | reflexivity | reflexivity | simpl; lia | repeat constructor ].

Section Invariant.

Variable self : BoxerDrsParser.
Variable pe : M Expression.
Hypothesis Hpe : post pe Ok.

Lemma post_handle_pred indices : post (_handle_pred self indices) Ok.
Proof. unfold _handle_pred. binds. atom_ok_tac "1"%char. Qed.

Lemma post_handle_named indices : post (_handle_named indices) Ok.
Proof.
  unfold _handle_named. binds. atom_ok_tac "1"%char.
  apply (pred_name_final "n" _ (Py.str 1) "1"). reflexivity.
Qed.

Lemma post_handle_rel indices : post (_handle_rel indices) Ok.
Proof.
  unfold _handle_rel. binds. atom_ok_tac "2"%char.
  apply (pred_name_final "r" _ (Py.str 2) "2"). reflexivity.
Qed.

Lemma post_handle_card indices : post (_handle_card indices) Ok.
Proof. unfold _handle_card. binds. atom_ok_tac "3"%char. Qed.

Lemma post_handle_eq indices : post (_handle_eq indices) Ok.
Proof. unfold _handle_eq. binds. now apply post_ret. Qed.

Lemma post_append_atom (conds : list Expression) (pred : string) (args : list Arg) :
  Oks conds ->
  post (lift (_make_atom (Str pred) args)) Ok ->
  post (bind (lift (_make_atom (Str pred) args)) (fun atom => ret (conds ++ [atom]))) Oks.
Proof.
  intros Hc Ha. eapply post_bind; [exact Ha|]. intros a Hok.
  apply post_ret. now apply Oks_app, Oks_one.
Qed.

Lemma post_slot placeholder pred arg conds :
  final_char (name (_make_Variable pred)) = Some "2"%char ->
  Oks conds -> post (slot placeholder pred arg conds) Oks.
Proof.
  intros Hp Hc. unfold slot. binds. apply post_if; [|now apply post_ret].
  apply post_append_atom; [exact Hc|]. now atom_ok_tac "2"%char.
Qed.

Lemma post_handle_date arg : post (_handle_date arg) Oks.
Proof.
  unfold _handle_date. binds.
  eapply post_bind with (Q := Oks).
  { ifs; try (now apply post_ret);
      (apply post_append_atom; [reflexivity | atom_ok_tac "2"%char]). }
  intros conds Hc. binds.
  eapply post_bind with (Q := Oks).
  { apply post_if; [|now apply post_ret].
    apply post_append_atom; [exact Hc | atom_ok_tac "2"%char]. }
  clear conds Hc. intros conds Hc. binds.
  eapply post_bind with (Q := Oks); [now apply post_slot|].
  clear conds Hc. intros conds Hc. binds.
  eapply post_bind with (Q := Oks); [now apply post_slot|].
  intros. now apply post_ret.
Qed.

Lemma post_handle_time arg : post (_handle_time arg) Oks.
Proof.
  unfold _handle_time.
  eapply post_bind with (Q := Oks); [now apply post_slot|].
  intros conds Hc. binds.
  eapply post_bind with (Q := Oks); [now apply post_slot|].
  clear conds Hc. intros conds Hc. binds.
  eapply post_bind with (Q := Oks); [now apply post_slot|].
  intros. now apply post_ret.
Qed.

Lemma post_handle_time_expression arg : post (_handle_time_expression arg) OksOpt.
Proof.
  unfold _handle_time_expression. apply post_bind_any. intros tok. binds.
  assert (F : forall conds, Oks conds ->
    post (bind (expect ")") (fun _ =>
          bind (lift (_make_atom (Str ("r_" +:+ tok +:+ "_1")) [Str arg])) (fun atom =>
          ret (Some ([atom] ++ conds))))) OksOpt).
  { intros conds Hc. binds. eapply post_bind with (Q := Ok).
    - atom_ok_tac "1"%char. apply (pred_name_final "r" tok "1" "1"). reflexivity.
    - intros atom Ha. apply post_ret. simpl. now apply (Oks_app [atom]), Hc; apply Oks_one. }
  ifs.
  - eapply post_bind; [apply post_handle_date | exact F].
  - eapply post_bind; [apply post_handle_time | exact F].
  - now apply post_ret.
Qed.

Lemma post_handle_timex indices : post (_handle_timex indices) OksOpt.
Proof.
  unfold _handle_timex. binds.
  eapply post_bind; [apply post_handle_time_expression|].
  intros o Ho. binds. now apply post_ret.
Qed.

Lemma post_make_binary_expression cls : post (_make_binary_expression pe cls) Ok.
Proof.
  unfold _make_binary_expression. binds.
  eapply post_bind; [exact Hpe|]. intros e1 H1. binds.
  eapply post_bind; [exact Hpe|]. intros e2 H2. binds.
  apply post_ret. unfold Ok in *. simpl. now rewrite H1, H2.
Qed.

Lemma post_handle_prop indices : post (_handle_prop pe indices) Ok.
Proof.
  unfold _handle_prop. binds. eapply post_bind; [exact Hpe|].
  intros e He. binds. now apply post_ret.
Qed.

Lemma type_atoms_ok (ref : Var) (types : list string) :
  Oks (map (fun t => type_atom "r" t ref) types).
Proof.
  unfold Oks. apply forallb_forall. intros e He. apply in_map_iff in He.
  destruct He as (t & <- & _). unfold type_atom.
  assert (F : final_char ("r" +:+ "_" +:+ t +:+ "_1") = Some "1"%char)
    by now repeat apply final_char_app.
  cbn [arity_ok uncurry uncurry_loop atom_ok name]. unfold arity_digit.
  rewrite F. reflexivity.
Qed.

Lemma post_handle_whq indices : post (_handle_whq self pe indices) Ok.
Proof.
  unfold _handle_whq. binds. apply post_bind_any. intros ans_types. binds.
  eapply post_bind; [exact Hpe|]. intros d1 H1. binds.
  eapply post_bind; [exact Hpe|]. intros d2 H2. binds.
  rewrite whq_atoms. eapply post_bind with (Q := Oks).
  - apply post_lift. intros l E. injection E as <-. apply type_atoms_ok.
  - intros atoms Ha. apply post_ret. unfold Ok, Oks in *. simpl.
    now rewrite Ha, H1, H2.
Qed.

Lemma post_handle_condition tok indices : post (handle_condition self pe tok indices) OksOpt.
Proof.
  assert (W : forall m : M Expression, post m Ok ->
                post (bind m (fun e => ret (Some [e]))) OksOpt).
  { intros m Hm. eapply post_bind; [exact Hm|]. intros e He.
    apply post_ret. now apply Oks_one. }
  unfold handle_condition. ifs.
  - binds. eapply post_bind; [exact Hpe|]. intros e He. binds.
    apply post_ret. now apply Oks_one.
  - apply W, post_make_binary_expression.
  - apply W, post_make_binary_expression.
  - apply W, post_handle_eq.
  - apply W, post_handle_prop.
  - apply W, post_handle_pred.
  - apply W, post_handle_named.
  - apply W, post_handle_rel.
  - apply post_handle_timex.
  - apply W, post_handle_card.
  - apply W, post_handle_whq.
  - now apply post_ret.
Qed.

Lemma post_parse_condition indices : post (parse_condition self pe indices) Oks.
Proof.
  unfold parse_condition. binds.
  eapply post_bind; [apply post_handle_condition|].
  intros [l|] Hl; [now apply post_ret | apply post_raise].
Qed.

Lemma post_parse_drs : post (parse_drs self pe) Ok.
Proof.
  unfold parse_drs. binds. apply post_bind_any. intros refs. binds.
  eapply post_bind with (Q := Oks).
  - apply post_while; [|reflexivity]. intros conds Hc. unfold parse_drs_cond.
    binds. eapply post_bind; [apply post_parse_condition|].
    intros new Hn. binds. apply post_ret. now apply Oks_app.
  - intros conds Hc. binds. now apply post_ret.
Qed.

Lemma post_handle tok :
  post (handle self pe tok) (fun o => match o with Some e => Ok e | None => True end).
Proof.
  assert (W : forall m : M Expression, post m Ok ->
                post (bind m (fun e => ret (Some e)))
                     (fun o => match o with Some e => Ok e | None => True end)).
  { intros m Hm. eapply post_bind; [exact Hm|]. intros e He. now apply post_ret. }
  unfold handle, handle_drs. ifs.
  - apply W, post_parse_drs.
  - apply W, post_make_binary_expression.
  - apply W, post_make_binary_expression.
  - now apply post_ret.
Qed.

Lemma post_parse_Expression_body : post (parse_Expression_body self pe) Ok.
Proof.
  unfold parse_Expression_body. binds.
  eapply post_bind; [apply post_handle|].
  intros [e|] He; [now apply post_ret | apply post_raise].
Qed.

End Invariant.

Lemma post_parse_Expression (self : BoxerDrsParser) (fuel : nat) :
  post (parse_Expression self fuel) Ok.
Proof.
  induction fuel as [|fuel IH].
  - intros toks e rest E. discriminate E.
  - apply post_parse_Expression_body, IH.
Qed.



(** ** C4: the compound-noun rewrite *)

Lemma Expression_induction (P : Expression -> Prop) :
  (forall refs conds, Forall P conds -> P (DRS refs conds)) ->
  (forall term, P term -> P (DrtNegatedExpression term)) ->
  (forall variable term, P term -> P (DrtLambdaExpression variable term)) ->
  (forall cls first second, P first -> P second -> P (BinaryExpression cls first second)) ->
  (forall variable, P (DrtVariableExpression variable)) ->
  (forall function argument,
     P function -> P argument -> P (DrtApplicationExpression function argument)) ->
  forall e, P e.
Proof.
  intros HD HN HL HB HV HA.
  fix IH 1. intros [refs conds|term|variable term|cls first second|variable|function argument].
  - apply HD. induction conds as [|c conds IHc]; constructor; [apply IH | exact IHc].
  - apply HN, IH.
  - apply HL, IH.
  - apply HB; apply IH.
  - apply HV.
  - apply HA; apply IH.
Qed.

Lemma nn_unfold_application (function argument : Expression) :
  _nn (DrtApplicationExpression function argument)
  = let '(func, args) := uncurry function argument in
    func_name <~ variable_name func ;;
    if String.eqb func_name "r_nn_2" then
      match args with
      | [arg1; arg2] => OK (BinaryExpression DrtEqualityExpression arg1 arg2)
      | _ => Raise AssertionError
      end
    else
      accum <~ nn_chain function ;;
      arg <~ _nn argument ;;
      OK (DrtApplicationExpression accum arg).
Proof. reflexivity. Qed.

Lemma nn_chain_args (function : Expression) :
  forall rest,
    (accum <~ nn_chain function ;; _nn_args accum rest)
    = let '(func, args) := uncurry_loop function rest in
      accum <~ _nn func ;; _nn_args accum args.
Proof.
  induction function as [refs conds|term|variable term|cls first second|variable
                        |function IHf argument _]; intros rest; try reflexivity.
  cbn [uncurry_loop]. rewrite <- IHf. cbn [nn_chain _nn_args].
  destruct (nn_chain function) as [accum| |]; try reflexivity.
  cbn [rbind]. destruct (_nn argument); reflexivity.
Qed.

(** The application case of [_nn] in the form the source has it: take the
    chain apart with [uncurry], then either build the equality or rebuild
    the chain from the rewritten head and the rewritten arguments. *)
Lemma _nn_application (function argument : Expression) :
  _nn (DrtApplicationExpression function argument)
  = let '(func, args) := uncurry function argument in
    func_name <~ variable_name func ;;
    if String.eqb func_name "r_nn_2" then
      match args with
      | [arg1; arg2] => OK (BinaryExpression DrtEqualityExpression arg1 arg2)
      | _ => Raise AssertionError
      end
    else
      accum <~ _nn func ;;
      _nn_args accum args.
Proof.
  rewrite nn_unfold_application. unfold uncurry.
  pose proof (nn_chain_args function [argument]) as H.
  destruct (uncurry_loop function [argument]) as [func args].
  destruct (variable_name func) as [func_name| |]; try reflexivity.
  cbn [rbind]. destruct (String.eqb func_name "r_nn_2"); [reflexivity|].
  rewrite <- H. cbn [_nn_args].
  destruct (nn_chain function) as [accum| |]; reflexivity.
Qed.

Lemma uncurry_loop_spec (function : Expression) :
  forall acc func args,
    uncurry_loop function acc = (func, args) ->
    exists pre, args = pre ++ acc /\ function = apply_args func pre.
Proof.
  induction function as [refs conds|term|variable term|cls first second|variable
                        |function IHf argument _]; intros acc func args E;
    try (injection E as <- <-; now exists []).
  cbn [uncurry_loop] in E. destruct (IHf _ _ _ E) as (pre & -> & ->).
  exists (pre ++ [argument]). split.
  - now rewrite <- app_assoc.
  - unfold apply_args. now rewrite fold_left_app.
Qed.

Lemma nn_args_variables (args : list Expression) :
  forall accum,
    forallb is_variable_expression args = true ->
    _nn_args accum args = OK (apply_args accum args).
Proof.
  induction args as [|arg args IH]; intros accum H; [reflexivity|].
  simpl in H. apply andb_true_iff in H. destruct H as [Ha Hr].
  destruct arg; try discriminate Ha. cbn [_nn_args _nn rbind apply_args fold_left].
  now rewrite IH.
Qed.

Lemma rmap_nn (conds : list Expression) :
  Forall (fun e => atom_shaped e = true ->
                   _nn e = if nn_binary e then OK (fold_nn e) else Raise AssertionError) conds ->
  forallb atom_shaped conds = true ->
  rmap _nn conds
  = if forallb nn_binary conds then OK (map fold_nn conds) else Raise AssertionError.
Proof.
  induction 1 as [|c conds Hc Hf IH]; intros Hs; [reflexivity|].
  simpl in Hs. apply andb_true_iff in Hs. destruct Hs as [Hs1 Hs2].
  cbn [rmap forallb map]. rewrite (Hc Hs1). destruct (nn_binary c); [|reflexivity].
  cbn [rbind andb]. fold (rmap _nn conds). rewrite (IH Hs2).
  now destruct (forallb nn_binary conds).
Qed.

(** On the trees of the data model, [_nn] is the folding of the
    specification when every [r_nn_2] atom is binary, and fails on its
    assertion otherwise. *)
Lemma nn_atom_shaped (e : Expression) :
  atom_shaped e = true ->
  _nn e = if nn_binary e then OK (fold_nn e) else Raise AssertionError.
Proof.
  induction e as [refs conds IH|term IH|variable term IH|cls first second IH1 IH2|variable
                 |function argument _ _] using Expression_induction; intros Hs.
  - cbn [_nn atom_shaped nn_binary fold_nn] in *. rewrite (rmap_nn conds IH Hs).
    now destruct (forallb nn_binary conds).
  - cbn [_nn atom_shaped nn_binary fold_nn] in *. rewrite (IH Hs).
    now destruct (nn_binary term).
  - cbn [_nn atom_shaped nn_binary fold_nn] in *. rewrite (IH Hs).
    now destruct (nn_binary term).
  - cbn [_nn atom_shaped nn_binary fold_nn] in *.
    apply andb_true_iff in Hs. destruct Hs as [H1 H2].
    rewrite (IH1 H1). destruct (nn_binary first); [|reflexivity].
    cbn [rbind andb]. rewrite (IH2 H2). now destruct (nn_binary second).
  - reflexivity.
  - rewrite _nn_application. cbn [atom_shaped nn_binary] in *. unfold uncurry in *.
    destruct (uncurry_loop function [argument]) as [func args] eqn:U.
    apply andb_true_iff in Hs. destruct Hs as [Hf Ha].
    destruct func as [| | | |pred|]; try discriminate Hf.
    destruct (uncurry_loop_spec _ _ _ _ U) as (pre & Eargs & Efun).
    cbn [variable_name rbind]. destruct (String.eqb (name pred) "r_nn_2") eqn:En.
    + destruct args as [|arg1 [|arg2 [|arg3 args]]]; try reflexivity.
      destruct pre as [|p [|p' pre]]; try discriminate Eargs;
        [|destruct pre; discriminate Eargs].
      injection Eargs as -> ->. subst function. cbn [apply_args fold_left fold_nn].
      now rewrite En.
    + cbn [_nn rbind]. rewrite (nn_args_variables args _ Ha). f_equal.
      subst args function.
      transitivity (DrtApplicationExpression (apply_args (DrtVariableExpression pred) pre) argument).
      { unfold apply_args. now rewrite fold_left_app. }
      destruct pre as [|arg1 pre] using rev_ind; [reflexivity|].
      unfold apply_args. rewrite fold_left_app. cbn [fold_left fold_nn].
      destruct pre as [|arg0 pre] using rev_ind; [cbn [fold_left]; now rewrite En|].
      rewrite fold_left_app. reflexivity.
Qed.

Lemma variables_no_preds (args : list Expression) :
  forallb is_variable_expression args = true -> flat_map atom_preds args = [].
Proof.
  induction args as [|arg args IH]; [reflexivity|]. simpl. intros H.
  apply andb_true_iff in H. destruct H as [Ha Hr].
  destruct arg; try discriminate Ha. now rewrite (IH Hr).
Qed.

Lemma fold_nn_no_nn (e : Expression) :
  atom_shaped e = true -> nn_binary e = true -> ~ In "r_nn_2" (atom_preds (fold_nn e)).
Proof.
  induction e as [refs conds IH|term IH|variable term IH|cls first second IH1 IH2|variable
                 |function argument _ _] using Expression_induction; intros Hs Hb.
  - cbn [atom_shaped nn_binary fold_nn atom_preds] in *.
    rewrite in_flat_map. intros (c' & Hin & Hp).
    apply in_map_iff in Hin. destruct Hin as (c & <- & Hin).
    rewrite List.Forall_forall in IH. rewrite forallb_forall in Hs, Hb.
    exact (IH c Hin (Hs c Hin) (Hb c Hin) Hp).
  - now apply IH.
  - now apply IH.
  - cbn [atom_shaped nn_binary fold_nn atom_preds] in *.
    apply andb_true_iff in Hs, Hb. destruct Hs as [Hs1 Hs2], Hb as [Hb1 Hb2].
    rewrite in_app_iff. intros [H|H]; [now apply IH1 | now apply IH2].
  - intros [].
  - cbn [atom_shaped nn_binary] in *. unfold uncurry in *.
    destruct (uncurry_loop function [argument]) as [func args] eqn:U.
    apply andb_true_iff in Hs. destruct Hs as [Hf Ha].
    destruct func as [| | | |pred|]; try discriminate Hf.
    destruct (uncurry_loop_spec _ _ _ _ U) as (pre & Eargs & Efun).
    cbn [variable_name] in Hb.
    assert (V : forall x, In x args -> atom_preds x = []).
    { intros x Hx. rewrite forallb_forall in Ha. specialize (Ha x Hx).
      now destruct x. }
    destruct (String.eqb (name pred) "r_nn_2") eqn:En.
    + apply Nat.eqb_eq in Hb.
      destruct args as [|arg1 [|arg2 [|arg3 args]]]; try discriminate Hb.
      destruct pre as [|p [|p' pre]]; try discriminate Eargs;
        [|destruct pre; discriminate Eargs].
      injection Eargs as -> ->. subst function. cbn [apply_args fold_left fold_nn].
      rewrite En. cbn [atom_preds].
      rewrite (V p), (V argument) by (simpl; auto). intros [].
    + assert (F : fold_nn (DrtApplicationExpression function argument)
                  = DrtApplicationExpression function argument).
      { subst function.
        destruct pre as [|arg1 pre] using rev_ind; [reflexivity|].
        unfold apply_args. rewrite fold_left_app. cbn [fold_left fold_nn].
        destruct pre as [|arg0 pre] using rev_ind; [cbn [fold_left]; now rewrite En|].
        rewrite fold_left_app. reflexivity. }
      rewrite F. cbn [atom_preds]. unfold uncurry. rewrite U. cbn [fst].
      intros [H|[]]. apply String.eqb_neq in En. now apply En.
Qed.




(** ** The loop of the demultiplexer *)

Section Loop.

Variable simplify : Expression -> Expression.
Variable lines : list string.
Variable occur_index_ : bool.
Variable use_disc_id : bool.

Abbreviation step' := (step simplify lines occur_index_ use_disc_id).
Abbreviation loop' := (loop simplify lines occur_index_ use_disc_id).
Abbreviation reaches' := (reaches simplify lines occur_index_ use_disc_id).
Abbreviation parse_discourse' := (parse_discourse simplify lines occur_index_ use_disc_id).

Lemma step_OK i d i' d' :
  step' i d = OK (i', d') ->
  (i < i')%nat /\
  ((i' = i + 1 /\ d' = d)%nat \/
   exists line id drs,
     lines !! i = Some line /\ Py.startswith line "id(" = true /\
     parse_discourse' i line = OK (id, drs) /\ d' = <[id := drs]> d).
Proof.
  unfold step. destruct (lines !! i) as [line|] eqn:L; [|discriminate].
  cbn [or_raise rbind]. destruct (Py.startswith line "id(") eqn:S.
  - destruct (parse_discourse' i line) as [[id drs]| |] eqn:P; try discriminate.
    cbn [rbind]. intros E. injection E as <- <-. split; [lia|].
    right. now exists line, id, drs.
  - intros E. injection E as <- <-. split; [lia|]. now left.
Qed.

Lemma loop_reaches i d i' d' :
  reaches' i d i' d' ->
  forall n, (length lines - i < n)%nat ->
  exists n', (length lines - i' < n')%nat /\ loop' n i d = loop' n' i' d'.
Proof.
  induction 1 as [i d|i d i' d' i'' d'' Hi Hs _ IH]; intros n Hn.
  - now exists n.
  - destruct n as [|n]; [lia|]. destruct (step_OK _ _ _ _ Hs) as [Hlt _].
    destruct (IH n ltac:(lia)) as (n' & Hn' & E). exists n'. split; [exact Hn'|].
    cbn [loop]. apply Nat.ltb_lt in Hi. rewrite Hi, Hs. exact E.
Qed.

Lemma loop_raises i d e n :
  (i < length lines)%nat -> (0 < n)%nat -> step' i d = Raise e -> loop' n i d = Raise e.
Proof.
  intros Hi Hn Hs. destruct n as [|n]; [lia|]. cbn [loop].
  apply Nat.ltb_lt in Hi. now rewrite Hi, Hs.
Qed.

Lemma loop_keys n :
  forall i d d' k,
    loop' n i d = OK d' -> is_Some (d' !! k) -> is_Some (d !! k) \/ appears lines k.
Proof.
  induction n as [|n IH]; intros i d d' k E Hk; [discriminate E|].
  cbn [loop] in E. destruct (i <? length lines)%nat.
  - destruct (step' i d) as [[i1 d1]| |] eqn:Hs; try discriminate E. cbn [rbind] in E.
    destruct (IH _ _ _ _ E Hk) as [H1|H1]; [|now right].
    destruct (step_OK _ _ _ _ Hs) as [_ [[_ ->]|(line & id & drs & L & S & P & ->)]];
      [now left|].
    destruct (decide (id = k)) as [<-|Hne].
    + right. unfold parse_discourse in P.
      destruct (discourse_id_of line) as [[id' comma_idx]| |] eqn:D; try discriminate P.
      exists line, comma_idx. split; [|split; [exact S|]].
      * apply list_elem_of_In. eapply list_elem_of_lookup_2. exact L.
      * cbn [rbind] in P.
        repeat match type of P with
               | rbind ?r _ = _ => destruct r; try discriminate P; cbn [rbind] in P
               end.
        injection P as -> _. exact D.
    + left. now rewrite lookup_insert_ne in H1.
  - injection E as <-. now left.
Qed.

End Loop.

Lemma parse_to_drs_dict_keys simplify boxer_out occur_index use_disc_id d k :
  _parse_to_drs_dict simplify boxer_out occur_index use_disc_id = OK d ->
  ~ appears (Py.split boxer_out newline) k -> d !! k = None.
Proof.
  intros E Hk. destruct (d !! k) eqn:L; [|reflexivity].
  destruct (loop_keys _ _ _ _ _ _ _ _ k E) as [H|H].
  - now rewrite L.
  - rewrite lookup_empty in H. now destruct H.
  - contradiction.
Qed.

Lemma parse_discourse_raises simplify lines (occur use_disc_id : bool) i line
  (id : string) comma_idx close_idx line4 line8 e :
  discourse_id_of line = OK (id, comma_idx) ->
  Py.index line ")" = Some close_idx ->
  lines !! (i + 4)%nat = Some line4 ->
  Py.startswith line4 ("sem(" +:+ Py.slice line (comma_idx + 1) close_idx +:+ ",") = true ->
  lines !! (i + 8)%nat = Some line8 ->
  Py.endswith line8 ")." = true ->
  parse {| occur_index := occur;
           discourse_id := if use_disc_id then Some id else None |}
        (Py.strip (Py.drop_last line8 2)) = Raise e ->
  parse_discourse simplify lines occur use_disc_id i line = Raise e.
Proof.
  intros D C L4 S4 L8 E8 P. unfold parse_discourse.
  rewrite D. cbn [rbind]. rewrite C. cbn [or_raise rbind]. rewrite L4.
  cbn [or_raise rbind]. rewrite S4. cbn [assert rbind]. rewrite L8.
  cbn [or_raise rbind]. rewrite E8. cbn [assert rbind]. now rewrite P.
Qed.

(** ** C2: a parse failure in a batch *)

(** C2 (amended).  When the loop of [_parse_to_drs_dict] comes to an [id(]
    line whose header lines pass the two checks and whose term the parser
    rejects with an exception, that exception leaves [_parse_to_drs_dict],
    and with it [batch_interpret_multisentence]: no result map is returned,
    the discourses read before are lost and the ones after are not read. *)
Theorem parse_failure_aborts_batch (simplify : Expression -> Expression)
  (boxer_out : string) (occur use_disc_id : bool)
  (i : nat) (d : gmap string Expression)
  (line id line4 line8 : string) (comma_idx close_idx : nat) (e : Exception) :
  reaches simplify (Py.split boxer_out newline) occur use_disc_id 0 ∅ i d ->
  Py.split boxer_out newline !! i = Some line ->
  Py.startswith line "id(" = true ->
  discourse_id_of line = OK (id, comma_idx) ->
  Py.index line ")" = Some close_idx ->
  Py.split boxer_out newline !! (i + 4)%nat = Some line4 ->
  Py.startswith line4 ("sem(" +:+ Py.slice line (comma_idx + 1) close_idx +:+ ",") = true ->
  Py.split boxer_out newline !! (i + 8)%nat = Some line8 ->
  Py.endswith line8 ")." = true ->
  parse {| occur_index := occur;
           discourse_id := if use_disc_id then Some id else None |}
        (Py.strip (Py.drop_last line8 2)) = Raise e ->
  _parse_to_drs_dict simplify boxer_out occur use_disc_id = Raise e /\
  (use_disc_id = true ->
   forall run_boxer inputs discourse_ids,
     length inputs = length discourse_ids ->
     run_boxer inputs discourse_ids = OK boxer_out ->
     batch_interpret_multisentence simplify run_boxer inputs occur (Some discourse_ids)
     = Raise e).
Proof.
  intros R L Hs D C L4 S4 L8 E8 P.
  assert (Hi : (i < length (Py.split boxer_out newline))%nat)
    by (eapply lookup_lt_Some; exact L).
  assert (F : _parse_to_drs_dict simplify boxer_out occur use_disc_id = Raise e).
  { unfold _parse_to_drs_dict.
    destruct (loop_reaches _ _ _ _ _ _ _ _ R (S (length (Py.split boxer_out newline)))
                ltac:(lia)) as (n' & Hn' & ->).
    apply loop_raises; [exact Hi | lia |].
    unfold step. rewrite L. cbn [or_raise rbind]. rewrite Hs.
    now rewrite (parse_discourse_raises _ _ _ _ _ _ _ _ _ _ _ _ D C L4 S4 L8 E8 P). }
  split; [exact F|]. intros -> run_boxer inputs discourse_ids Hl Hr.
  unfold batch_interpret_multisentence. apply Nat.eqb_eq in Hl. rewrite Hl.
  cbn [assert rbind]. rewrite Hr. cbn [rbind]. now rewrite F.
Qed.

Lemma parse_failure_aborts_batch_witness :
  batch_interpret_multisentence simplify (fun _ _ => OK good_then_malformed)
    [["a dog"]; ["x"]] false (Some ["2"; "1"])
  = Raise (UnexpectedTokenException ")" (Some ",")).
Proof.
  refine (proj2 (parse_failure_aborts_batch simplify good_then_malformed false true
                   10 (<["2" := DRS [Variable_ "z1"] [atom "n_dog_2_1" ["z1"]]]> ∅)
                   "id(1,1)." "1" "sem(1," "    drs([[1001]:_G1]) )." 4 6
                   (UnexpectedTokenException ")" (Some ","))
                   _ _ _ _ _ _ _ _ _ _) eq_refl (fun _ _ => OK good_then_malformed)
                 [["a dog"]; ["x"]] ["2"; "1"] eq_refl eq_refl);
    try (vm_compute; reflexivity).
  eapply reaches_next; [vm_compute; lia | vm_compute; reflexivity |].
  eapply reaches_next; [vm_compute; lia | vm_compute; reflexivity |].
  apply reaches_here.
Defined.

(** C2, as stated, fails: with a malformed first discourse and a
    well-formed second one the call raises the parser's exception; it does
    not return the results [absent] and the parsed second discourse. *)
Lemma malformed_discourse_aborts_batch :
  batch_interpret_multisentence simplify (fun _ _ => OK malformed_then_good)
    [["x"]; ["a dog"]] false (Some ["1"; "2"])
  = Raise (UnexpectedTokenException ")" (Some ",")) /\
  batch_interpret_multisentence simplify (fun _ _ => OK malformed_then_good)
    [["x"]; ["a dog"]] false (Some ["1"; "2"])
  <> OK [None; Some (DRS [Variable_ "z1"] [atom "n_dog_2_1" ["z1"]])] /\
  parse {| occur_index := false; discourse_id := Some "2" |} dog_term
  = OK (DRS [Variable_ "z1"] [atom "n_dog_2_1" ["z1"]]).
Proof.
  split; [vm_compute; reflexivity|]. split; [vm_compute; discriminate|].
  vm_compute; reflexivity.
Qed.

(** ** C5: one result slot per requested discourse *)

(** C5.  Called with a list of discourse identifiers as long as the list of
    inputs, on an output of the external tool that [_parse_to_drs_dict]
    turns into a dictionary, [batch_interpret_multisentence] returns the
    list of what the dictionary has for each requested identifier.  And
    whatever list the call returns has one slot per requested identifier, in
    the order of the request, each slot holding what the dictionary has for
    that identifier; the slot of an identifier that stands on no [id(] line
    of the output holds [None]. *)
Theorem batch_one_slot_per_request (simplify : Expression -> Expression)
  (run_boxer : list (list string) -> list string -> Result string)
  (inputs : list (list string)) (occur : bool) (discourse_ids : list string) :
  (forall boxer_out (drs_dict : gmap string Expression),
     length inputs = length discourse_ids ->
     run_boxer inputs discourse_ids = OK boxer_out ->
     _parse_to_drs_dict simplify boxer_out occur true = OK drs_dict ->
     batch_interpret_multisentence simplify run_boxer inputs occur (Some discourse_ids)
     = OK (map (fun id => drs_dict !! id) discourse_ids)) /\
  (forall results,
     batch_interpret_multisentence simplify run_boxer inputs occur (Some discourse_ids)
     = OK results ->
     length results = length discourse_ids /\
     exists boxer_out (drs_dict : gmap string Expression),
       run_boxer inputs discourse_ids = OK boxer_out /\
       _parse_to_drs_dict simplify boxer_out occur true = OK drs_dict /\
       (forall (i : nat) (id : string),
          discourse_ids !! i = Some id -> results !! i = Some (drs_dict !! id)) /\
       (forall (i : nat) (id : string),
          discourse_ids !! i = Some id ->
          ~ appears (Py.split boxer_out newline) id ->
          results !! i = Some None)).
Proof.
  split.
  - intros boxer_out drs_dict Hl Hr Hp.
    unfold batch_interpret_multisentence. apply Nat.eqb_eq in Hl. rewrite Hl.
    cbn [assert rbind]. rewrite Hr. cbn [rbind]. now rewrite Hp.
  - intros results E. unfold batch_interpret_multisentence in E.
    destruct (length inputs =? length discourse_ids)%nat; [|discriminate E].
    cbn [assert rbind] in E.
    destruct (run_boxer inputs discourse_ids) as [boxer_out| |] eqn:Hr;
      try discriminate E.
    cbn [rbind] in E.
    destruct (_parse_to_drs_dict simplify boxer_out occur true) as [drs_dict| |] eqn:Hp;
      try discriminate E.
    cbn [rbind] in E. injection E as <-.
    assert (Hs : forall (i : nat) (id : string),
               discourse_ids !! i = Some id ->
               map (fun id => drs_dict !! id) discourse_ids !! i = Some (drs_dict !! id)).
    { intros i id Hi. rewrite list_lookup_fmap. now rewrite Hi. }
    split; [apply length_map|]. exists boxer_out, drs_dict.
    split; [reflexivity|]. split; [exact Hp|]. split; [exact Hs|].
    intros i id Hi Hn. rewrite (Hs i id Hi). f_equal.
    eapply parse_to_drs_dict_keys; eassumption.
Qed.

Lemma batch_one_slot_per_request_witness :
  exists results,
    batch_interpret_multisentence simplify (fun _ _ => OK two_discourses)
      [["a dog"]; ["x y"]; ["skipped"]] false (Some ["d2"; "d3"; "d1"]) = OK results /\
    length results = 3%nat /\ results !! 1%nat = Some None.
Proof.
  pose proof (batch_one_slot_per_request simplify (fun _ _ => OK two_discourses)
                [["a dog"]; ["x y"]; ["skipped"]] false ["d2"; "d3"; "d1"]) as [R P].
  eexists. split.
  - apply (R two_discourses); [reflexivity | reflexivity | vm_compute; reflexivity].
  - split; reflexivity.
Defined.

(** ** The bounds of the recursion are never met *)

Lemma strict_safe {A} (m : M A) k : strict m k -> safe m k.
Proof.
  intros H toks Hk. specialize (H toks Hk).
  destruct (m toks) as [[a rest]| |]; [lia | exact I | exact H].
Qed.

Lemma safe_ret {A} (a : A) k : safe (ret a) k.
Proof. intros toks _. simpl. unfold ret. lia. Qed.

Lemma safe_raise {A} (e : Exception) k : safe (@raise A e) k.
Proof. intros toks _. exact I. Qed.

Lemma safe_lift {A} (r : Result A) k : r <> OutOfFuel -> safe (lift r) k.
Proof.
  intros H toks _. unfold lift. destruct r; cbn [rbind]; [lia | exact I | now apply H].
Qed.

Lemma safe_token k : safe token k.
Proof. intros [|t toks] _; simpl; unfold token; [exact I | simpl; lia]. Qed.

Lemma strict_token k : strict token k.
Proof. intros [|t toks] _; unfold token; [exact I | simpl; lia]. Qed.

Lemma safe_token0 k : safe token0 k.
Proof. intros [|t toks] _; unfold token0; [exact I | simpl; lia]. Qed.

Lemma safe_bind {A B} (m : M A) (f : A -> M B) k :
  safe m k -> (forall a, safe (f a) k) -> safe (bind m f) k.
Proof.
  intros Hm Hf toks Hk. unfold bind. specialize (Hm toks Hk).
  destruct (m toks) as [[a rest]| |]; [|exact I|exact Hm].
  specialize (Hf a rest ltac:(lia)).
  destruct (f a rest) as [[b rest']| |]; [lia | exact I | exact Hf].
Qed.

Lemma strict_bind {A B} (m : M A) (f : A -> M B) k :
  strict m k -> (forall a, safe (f a) k) -> strict (bind m f) k.
Proof.
  intros Hm Hf toks Hk. unfold bind. specialize (Hm toks Hk).
  destruct (m toks) as [[a rest]| |]; [|exact I|exact Hm].
  specialize (Hf a rest ltac:(lia)).
  destruct (f a rest) as [[b rest']| |]; [lia | exact I | exact Hf].
Qed.

Lemma safe_bind_token {B} (f : string -> M B) k :
  (forall t, safe (f t) k) -> safe (bind token f) (S k).
Proof.
  intros Hf [|t toks] Hk; [exact I|]. rewrite run_bind_token.
  specialize (Hf t toks ltac:(simpl in Hk; lia)).
  destruct (f t toks) as [[b rest]| |]; [simpl; lia | exact I | exact Hf].
Qed.

Lemma safe_if {A} (c : bool) (m1 m2 : M A) k :
  safe m1 k -> safe m2 k -> safe (if c then m1 else m2) k.
Proof. now destruct c. Qed.

Lemma strict_expect t k : strict (expect t) k.
Proof.
  unfold expect. apply strict_bind; [apply strict_token|].
  intros tok. unfold assertToken. apply safe_if; [apply safe_ret | apply safe_raise].
Qed.

Lemma safe_next_is_not t k : safe (next_is_not t) k.
Proof. unfold next_is_not. apply safe_bind; [apply safe_token0|]. intros; apply safe_ret. Qed.

Lemma safe_swallow_if t k : safe (swallow_if t) k.
Proof.
  unfold swallow_if. apply safe_bind; [apply safe_token0|]. intros tok.
  apply safe_if; [|apply safe_ret].
  apply safe_bind; [apply safe_token|]. intros; apply safe_ret.
Qed.

Lemma safe_while_ {St} (cond : M bool) (body : St -> M St) k :
  safe cond k -> (forall s, strict (body s) k) ->
  forall n s toks, (length toks < n)%nat -> (length toks < k)%nat ->
    match while_ n cond body s toks with
    | OK (_, rest) => (length rest <= length toks)%nat
    | Raise _ => True
    | OutOfFuel => False
    end.
Proof.
  intros Hc Hb. induction n as [|n IH]; intros s toks Hn Hk; [lia|].
  rewrite run_while_S. unfold bind at 1. specialize (Hc toks Hk).
  destruct (cond toks) as [[c rest]| |]; [|exact I|exact Hc].
  destruct c; [|unfold ret; lia].
  unfold bind. specialize (Hb s rest ltac:(lia)).
  destruct (body s rest) as [[s' rest']| |]; [|exact I|exact Hb].
  specialize (IH s' rest' ltac:(lia) ltac:(lia)).
  destruct (while_ n cond body s' rest') as [[s'' rest'']| |]; [lia | exact I | exact IH].
Qed.

Lemma safe_while {St} (cond : M bool) (body : St -> M St) (s : St) k :
  safe cond k -> (forall s, strict (body s) k) -> safe (while cond body s) k.
Proof.
  intros Hc Hb toks Hk. unfold while.
  apply (safe_while_ cond body k Hc Hb); [lia | exact Hk].
Qed.

Lemma as_variable_expression_fuel (a : Arg) : as_variable_expression a <> OutOfFuel.
Proof. destruct a as [s|v|e]; cbn; try discriminate. now destruct (is_variable_expression e). Qed.

Lemma make_atom_args_fuel (args : list Arg) :
  forall accum, _make_atom_args accum args <> OutOfFuel.
Proof.
  induction args as [|a args IH]; intros accum; cbn [_make_atom_args]; [discriminate|].
  pose proof (as_variable_expression_fuel a) as H.
  destruct (as_variable_expression a); cbn [rbind]; [apply IH | discriminate | now elim H].
Qed.

Lemma make_atom_fuel (pred : Arg) (args : list Arg) : _make_atom pred args <> OutOfFuel.
Proof.
  unfold _make_atom. pose proof (as_variable_expression_fuel pred) as H.
  destruct (as_variable_expression pred); cbn [rbind];
    [apply make_atom_args_fuel | discriminate | now elim H].
Qed.

Lemma rmap_fuel {A B} (f : A -> Result B) (l : list A) :
  (forall a, f a <> OutOfFuel) -> rmap f l <> OutOfFuel.
Proof.
  intros Hf. induction l as [|a l IH]; cbn [rmap]; [discriminate|].
  pose proof (Hf a) as H. destruct (f a); cbn [rbind]; [|discriminate|now elim H].
  fold (rmap f l). destruct (rmap f l); cbn [rbind]; [discriminate | discriminate | now elim IH].
Qed.

Lemma or_raise_fuel {A} (o : option A) e : or_raise o e <> OutOfFuel.
Proof. now destruct o. Qed.

Ltac safe_step :=
  match goal with
  | |- safe (ret _) _ => apply safe_ret
  | |- safe (raise _) _ => apply safe_raise
  | |- safe token _ => apply safe_token
  | |- safe (expect _) _ => apply strict_safe, strict_expect
  | |- safe (swallow_if _) _ => apply safe_swallow_if
  | |- safe (next_is_not _) _ => apply safe_next_is_not
  | |- safe (lift (_make_atom _ _)) _ => apply safe_lift, make_atom_fuel
  | |- safe (lift (or_raise _ _)) _ => apply safe_lift, or_raise_fuel
  | |- safe (if _ then _ else _) _ => apply safe_if
  | |- safe (match ?o with Some _ => _ | None => _ end) _ => destruct o
  | |- safe (bind _ _) _ => apply safe_bind; [|intros ?]
  | |- strict (bind (expect _) _) _ => apply strict_bind; [apply strict_expect|intros ?]
  | |- strict (bind token _) _ => apply strict_bind; [apply strict_token|intros ?]
  | |- forall _, _ => intros ?
  | H : safe ?m ?k |- safe ?m ?k => exact H
  end.

Ltac safe_tac := repeat safe_step.

Lemma strict_parse_index_list k : strict _parse_index_list k.
Proof.
  unfold _parse_index_list. safe_tac. apply safe_while; safe_tac.
Qed.

Section Bounds.

Variable self : BoxerDrsParser.
Variable pe : M Expression.
Variable k : nat.
Hypothesis Hpe : safe pe k.

Ltac safe_more :=
  repeat first
    [ safe_step
    | match goal with
      | |- safe _parse_index_list _ => apply strict_safe, strict_parse_index_list
      | |- strict (bind _parse_index_list _) _ =>
          apply strict_bind; [apply strict_parse_index_list|intros ?]
      end ].

Lemma safe_slot placeholder pred arg conds : safe (slot placeholder pred arg conds) k.
Proof. unfold slot. safe_more. Qed.

Lemma safe_handle_date arg : safe (_handle_date arg) k.
Proof. unfold _handle_date. safe_more; apply safe_slot. Qed.

Lemma safe_handle_time arg : safe (_handle_time arg) k.
Proof. unfold _handle_time. safe_more; apply safe_slot. Qed.

Lemma safe_handle_timex indices : safe (_handle_timex indices) k.
Proof.
  unfold _handle_timex, _handle_time_expression. safe_more;
    first [apply safe_handle_date | apply safe_handle_time].
Qed.

Lemma safe_make_binary_expression cls : safe (_make_binary_expression pe cls) k.
Proof. unfold _make_binary_expression. safe_more. Qed.

Lemma safe_handle_whq indices : safe (_handle_whq self pe indices) k.
Proof.
  unfold _handle_whq. safe_more.
  - apply safe_while; [apply safe_next_is_not|]. intros s.
    unfold _handle_whq_answer. safe_more.
  - apply safe_lift. unfold _handle_whq_atoms. apply rmap_fuel.
    intros t. apply make_atom_fuel.
Qed.

Lemma safe_handle_condition tok indices : safe (handle_condition self pe tok indices) k.
Proof.
  unfold handle_condition. safe_more;
    first [ apply safe_make_binary_expression | apply safe_handle_timex
          | apply safe_handle_whq | idtac ].
  - unfold _handle_eq. safe_more.
  - unfold _handle_prop. safe_more.
  - unfold _handle_pred. safe_more.
  - unfold _handle_named. safe_more.
  - unfold _handle_rel. safe_more.
  - unfold _handle_card. safe_more.
Qed.

Lemma safe_parse_condition indices : safe (parse_condition self pe indices) k.
Proof. unfold parse_condition. safe_more. apply safe_handle_condition. Qed.

Lemma safe_parse_drs : safe (parse_drs self pe) k.
Proof.
  unfold parse_drs. safe_more.
  - apply safe_while; [apply safe_next_is_not|]. intros s.
    unfold parse_drs_ref. safe_more.
  - apply safe_while; [apply safe_next_is_not|]. intros s.
    unfold parse_drs_cond. safe_more. apply safe_parse_condition.
Qed.

Lemma safe_handle tok : safe (handle self pe tok) k.
Proof.
  unfold handle, handle_drs. safe_more;
    first [apply safe_parse_drs | apply safe_make_binary_expression].
Qed.

Lemma safe_parse_Expression_body : safe (parse_Expression_body self pe) (S k).
Proof.
  unfold parse_Expression_body. apply safe_bind_token. intros tok.
  safe_more; [apply safe_handle | unfold attempt_adjuncts; apply safe_ret].
Qed.

End Bounds.

Lemma safe_parse_Expression (self : BoxerDrsParser) (fuel : nat) :
  safe (parse_Expression self fuel) fuel.
Proof.
  induction fuel as [|fuel IH]; [intros toks H; lia|].
  apply safe_parse_Expression_body, IH.
Qed.

Lemma process_fuel (data : string) : forall m, process data m <> OutOfFuel.
Proof.
  induction data as [|c data IH]; intros m.
  - destruct m; discriminate.
  - cbn [process quote_chars].
    assert (F : forall m (g : list string -> Result (list string)),
               (forall toks, g toks <> OutOfFuel) -> rbind (process data m) g <> OutOfFuel).
    { intros m' g Hg. pose proof (IH m') as H.
      destruct (process data m'); cbn [rbind]; [apply Hg | discriminate | now elim H]. }
    destruct m; repeat match goal with
                       | |- (if ?c then _ else _) <> _ => destruct c
                       end;
      first [apply IH | apply F; discriminate].
Qed.

(** [parse] gives its token count plus one as the bound of the recursion,
    and that bound is never met: [parse] returns an expression or raises an
    exception of the parser. *)
Theorem parse_total (self : BoxerDrsParser) (data : string) : parse self data <> OutOfFuel.
Proof.
  unfold parse. pose proof (process_fuel data (Bare "")) as H.
  destruct (process data (Bare "")) as [toks| |]; cbn [rbind];
    [|discriminate|now elim H].
  pose proof (safe_parse_Expression self (S (length toks)) toks ltac:(lia)) as P.
  destruct (parse_Expression self (S (length toks)) toks) as [[e rest]| |];
    cbn [rbind]; [discriminate | discriminate | destruct P].
Qed.

Lemma nn_chain_fuel (e : Expression) : _nn e <> OutOfFuel /\ nn_chain e <> OutOfFuel.
Proof.
  induction e as [refs conds IH|term IH|variable term IH|cls first second IH1 IH2|variable
                 |function argument IHf IHa] using Expression_induction.
  - assert (H : _nn (DRS refs conds) <> OutOfFuel); [|now split].
    cbn [_nn]. assert (H : rmap _nn conds <> OutOfFuel).
    { induction IH as [|c conds [Hc _] _ IHl]; cbn [rmap]; [discriminate|].
      destruct (_nn c); cbn [rbind]; [|discriminate|now elim Hc].
      fold (rmap _nn conds).
      destruct (rmap _nn conds); cbn [rbind]; [discriminate|discriminate|now elim IHl]. }
    destruct (rmap _nn conds); cbn [rbind]; [discriminate|discriminate|now elim H].
  - assert (H : _nn (DrtNegatedExpression term) <> OutOfFuel); [|now split].
    destruct IH as [IH _]. cbn [_nn].
    destruct (_nn term); cbn [rbind]; [discriminate|discriminate|now elim IH].
  - assert (H : _nn (DrtLambdaExpression variable term) <> OutOfFuel); [|now split].
    destruct IH as [IH _]. cbn [_nn].
    destruct (_nn term); cbn [rbind]; [discriminate|discriminate|now elim IH].
  - assert (H : _nn (BinaryExpression cls first second) <> OutOfFuel); [|now split].
    destruct IH1 as [IH1 _], IH2 as [IH2 _]. cbn [_nn].
    destruct (_nn first); cbn [rbind]; [|discriminate|now elim IH1].
    destruct (_nn second); cbn [rbind]; [discriminate|discriminate|now elim IH2].
  - split; discriminate.
  - destruct IHf as [_ C], IHa as [IHa _].
    assert (K : nn_chain (DrtApplicationExpression function argument) <> OutOfFuel).
    { cbn [nn_chain]. fold nn_chain.
      destruct (nn_chain function); cbn [rbind]; [|discriminate|now elim C].
      destruct (_nn argument); cbn [rbind]; [discriminate|discriminate|now elim IHa]. }
    split; [|exact K]. rewrite nn_unfold_application.
    destruct (uncurry function argument) as [func args].
    destruct (variable_name func) as [func_name| |] eqn:V; cbn [rbind];
      [|discriminate|now destruct func].
    destruct (String.eqb func_name "r_nn_2");
      [destruct args as [|a1 [|a2 [|a3 args]]]; discriminate|].
    exact K.
Qed.

(** [_nn] is structural: it needs no bound. *)
Lemma nn_fuel (e : Expression) : _nn e <> OutOfFuel.
Proof. apply nn_chain_fuel. Qed.

Lemma discourse_id_of_fuel (line : string) : discourse_id_of line <> OutOfFuel.
Proof.
  unfold discourse_id_of.
  destruct (Py.index line ","); cbn [or_raise rbind]; [|discriminate].
  destruct (Py.first_char _); cbn [or_raise rbind]; discriminate.
Qed.

Lemma parse_discourse_fuel simplify lines occur use_disc_id i line :
  parse_discourse simplify lines occur use_disc_id i line <> OutOfFuel.
Proof.
  unfold parse_discourse, _clean_drs, assert.
  pose proof (discourse_id_of_fuel line) as D.
  destruct (discourse_id_of line) as [[discourse_id_ comma_idx]| |]; cbn [rbind];
    [|discriminate|now elim D].
  repeat match goal with
         | |- rbind (or_raise ?o ?e) _ <> _ => destruct o; cbn [or_raise rbind]
         | |- rbind (if ?c then _ else _) _ <> _ => destruct c; cbn [rbind]
         | |- rbind (OK _) _ <> _ => cbn [rbind]
         | |- Raise _ <> _ => discriminate
         | |- OK _ <> _ => discriminate
         | |- rbind (parse ?p ?d) _ <> _ =>
             let H := fresh in
             pose proof (parse_total p d) as H;
             destruct (parse p d); cbn [rbind]; [|discriminate|now elim H]
         | |- rbind (_nn ?x) _ <> _ =>
             let H := fresh in
             pose proof (nn_fuel x) as H;
             destruct (_nn x); cbn [rbind]; [|discriminate|now elim H]
         end.
Qed.

Lemma loop_fuel simplify lines occur use_disc_id (n : nat) :
  forall i d, (length lines - i < n)%nat ->
    loop simplify lines occur use_disc_id n i d <> OutOfFuel.
Proof.
  induction n as [|n IH]; intros i d Hn; [lia|].
  cbn [loop]. destruct (Nat.ltb_spec i (length lines)) as [Hi|Hi]; [|discriminate].
  destruct (step simplify lines occur use_disc_id i d) as [[i' d']| |] eqn:Hs;
    cbn [rbind]; [|discriminate|].
  - destruct (step_OK _ _ _ _ _ _ _ _ Hs) as [Hlt _]. apply IH. lia.
  - exfalso. unfold step in Hs. destruct (lines !! i); cbn [or_raise rbind] in Hs;
      [|discriminate Hs].
    destruct (Py.startswith _ "id("); [|discriminate Hs].
    pose proof (parse_discourse_fuel simplify lines occur use_disc_id i s) as H.
    destruct (parse_discourse simplify lines occur use_disc_id i s) as [[id drs]| |];
      [discriminate Hs | discriminate Hs | now elim H].
Qed.

(** X22.  [_parse_to_drs_dict] gives its line count plus one as the bound
    of its loop, and that bound is never met: [i] grows in every iteration,
    the parser reads a token in every iteration and every nested call, and
    the clean-up descends the tree, so the call returns a dictionary or
    raises an exception on every output. *)
Theorem parse_to_drs_dict_total simplify boxer_out occur use_disc_id :
  _parse_to_drs_dict simplify boxer_out occur use_disc_id <> OutOfFuel.
Proof. unfold _parse_to_drs_dict. apply loop_fuel. lia. Qed.

(** * Further properties of the code *)

(** * Further properties of the code *)

(** ** Name sanitization *)

Lemma format_pred_name_chars (s : string) :
  forallb name_char (list_ascii_of_string (_format_pred_name s)) = true.
Proof.
  induction s as [|c s IH]; [reflexivity|]. cbn [_format_pred_name].
  fold (name_char c). destruct (name_char c) eqn:E; [|exact IH].
  cbn [list_ascii_of_string forallb]. now rewrite E, IH.
Qed.

Lemma format_pred_name_clean (s : string) :
  forallb name_char (list_ascii_of_string s) = true -> _format_pred_name s = s.
Proof.
  induction s as [|c s IH]; [reflexivity|]. cbn [list_ascii_of_string forallb].
  intros H. apply andb_true_iff in H. destruct H as [Hc Hs].
  cbn [_format_pred_name]. fold (name_char c). rewrite Hc. now rewrite (IH Hs).
Qed.

(** X1.  [_format_pred_name] leaves only ASCII letters, digits and
    underscores, keeps a name made of such characters as it is, and so does
    nothing when applied a second time; it never makes a name longer. *)
Theorem format_pred_name_sanitizes (s : string) :
  forallb name_char (list_ascii_of_string (_format_pred_name s)) = true /\
  (forallb name_char (list_ascii_of_string s) = true -> _format_pred_name s = s) /\
  _format_pred_name (_format_pred_name s) = _format_pred_name s /\
  (String.length (_format_pred_name s) <= String.length s)%nat.
Proof.
  split; [apply format_pred_name_chars|]. split; [apply format_pred_name_clean|].
  split; [apply format_pred_name_clean, format_pred_name_chars|].
  induction s as [|c s IH]; [reflexivity|]. cbn [_format_pred_name].
  match goal with |- context [if ?b then _ else _] => destruct b end; simpl; lia.
Qed.

Lemma format_pred_name_sanitizes_witness :
  forallb name_char (list_ascii_of_string "r_nn_2") = true /\
  _format_pred_name "r_nn_2" = "r_nn_2" /\
  _format_pred_name "o'neil-smith (jr.)" = "oneilsmithjr".
Proof.
  split; [reflexivity|]. split; [|reflexivity].
  apply (proj1 (proj2 (format_pred_name_sanitizes "r_nn_2"))). reflexivity.
Defined.

(** ** Index lists *)

Lemma int_not_bracket (t : string) (n : Z) : Py.int t = Some n -> String.eqb t "]" = false.
Proof.
  intros H. destruct (String.eqb_spec t "]") as [->|]; [discriminate H | reflexivity].
Qed.

Lemma index_loop (toks : list string) :
  forall (ns : list Z) (n : nat) (acc : list (Z * Z)) (rest : list string),
    Forall2 (fun t i => Py.int t = Some i) toks ns ->
    (length toks < n)%nat ->
    while_ n (next_is_not "]")
      (fun indices =>
         tok <- token ;;
         base_index <- lift (or_raise (Py.int tok) ValueError) ;;
         let indices := indices ++ [(sent_index base_index, word_index base_index)] in
         swallow_if "," ;;
         ret indices)
      acc (comma_separated toks ++ "]" :: rest)
    = OK (acc ++ map decode ns, "]" :: rest).
Proof.
  induction toks as [|t toks IH]; intros ns n acc rest H Hn;
    (destruct n as [|n]; [simpl in Hn; lia|]); inversion H as [|? i ? ns' Hi H']; subst.
  - run. now rewrite app_nil_r.
  - pose proof (int_not_bracket _ _ Hi) as Ht.
    destruct toks as [|t2 toks].
    + inversion H'; subst. cbn [comma_separated app]. run. rewrite Ht. run. rewrite Hi. run.
      destruct n as [|n]; [simpl in Hn; lia|]. run. reflexivity.
    + change (comma_separated (t :: t2 :: toks))
        with (t :: "," :: comma_separated (t2 :: toks)).
      cbn [app]. run. rewrite Ht. run. rewrite Hi. run.
      rewrite (IH ns' n _ rest H') by (simpl in *; lia).
      cbn [map]. now rewrite <- app_assoc.
Qed.

Lemma comma_separated_length (toks : list string) :
  (length toks <= length (comma_separated toks))%nat.
Proof.
  induction toks as [|t [|t2 toks] IH]; simpl in *; lia.
Qed.

(** X2.  [_parse_index_list] reads [[n1,n2,...]:] for any number of
    integer tokens and returns their decoded pairs in the order read,
    leaving exactly the tokens after the colon; the empty list [[]:] gives
    no pair. *)
Theorem parse_index_list_reads_all (toks : list string) (ns : list Z) (rest : list string) :
  Forall2 (fun t i => Py.int t = Some i) toks ns ->
  _parse_index_list ("[" :: comma_separated toks ++ "]" :: ":" :: rest)
  = OK (map decode ns, rest).
Proof.
  intros H. unfold _parse_index_list.
  rewrite run_bind_expect, run_bind_while.
  assert (Hn : (length toks < S (length (comma_separated toks ++ "]" :: ":" :: rest)))%nat).
  { rewrite length_app. pose proof (comma_separated_length toks). lia. }
  rewrite (bind_OK _ _ _ _ _ (index_loop toks ns _ [] (":" :: rest) H Hn)).
  run. reflexivity.
Qed.

Lemma parse_index_list_reads_all_witness :
  _parse_index_list ["["; "1001"; ","; "2003"; "]"; ":"; "x0"]
  = OK ([(0, 0)%Z; (1, 2)%Z], ["x0"]).
Proof.
  apply (parse_index_list_reads_all ["1001"; "2003"] [1001%Z; 2003%Z] ["x0"]).
  repeat constructor.
Defined.

(** X3.  A token of an index list that is no integer makes
    [_parse_index_list] fail with the [ValueError] of [int()], not with an
    exception of the parser. *)
Theorem parse_index_list_value_error (t : string) (rest : list string) :
  Py.int t = None -> t <> "]" ->
  _parse_index_list ("[" :: t :: rest) = Raise ValueError.
Proof.
  intros Hi Ht. apply String.eqb_neq in Ht. unfold _parse_index_list. run.
  rewrite Ht. run. rewrite Hi. reflexivity.
Qed.

Lemma parse_index_list_value_error_witness :
  _parse_index_list ["["; "x1"; "]"; ":"] = Raise ValueError.
Proof. apply parse_index_list_value_error; [reflexivity | discriminate]. Defined.

(** X4.  The decoding of an index loses nothing: every integer is
    recovered from its pair by [1000*(sentence+1) + (word+1)], so two
    indices with the same pair are equal; and the word component always
    lies between -1 and 998. *)
Theorem index_decode_injective (n m : Z) :
  encode (sent_index n) (word_index n) = n /\
  (decode n = decode m -> n = m) /\
  (-1 <= word_index n <= 998)%Z.
Proof.
  unfold decode, encode, sent_index, word_index.
  pose proof (Z.div_mod n 1000 ltac:(lia)). pose proof (Z.div_mod m 1000 ltac:(lia)).
  pose proof (Z.mod_pos_bound n 1000 ltac:(lia)).
  split; [lia|]. split; [|lia]. intros E. injection E as E1 E2. lia.
Qed.

Lemma index_decode_injective_witness : decode 3004 = decode 3004 /\ 3004%Z = 3004%Z.
Proof.
  split; [reflexivity|].
  apply (proj1 (proj2 (index_decode_injective 3004 3004))). reflexivity.
Defined.

(** ** Atoms *)

Lemma make_atom_args_strs (args : list string) :
  forall accum,
    _make_atom_args accum (map Str args)
    = OK (apply_args accum (map (fun arg => DrtVariableExpression (_make_Variable arg)) args)).
Proof.
  induction args as [|a args IH]; intros accum; [reflexivity|].
  cbn [map _make_atom_args as_variable_expression rbind]. now rewrite IH.
Qed.

Lemma uncurry_loop_apply_args (args : list Expression) :
  forall func acc,
    uncurry_loop (apply_args func args) acc
    = uncurry_loop func (args ++ acc).
Proof.
  induction args as [|a args IH] using rev_ind; intros func acc; [reflexivity|].
  unfold apply_args. rewrite fold_left_app. cbn [fold_left uncurry_loop].
  fold (apply_args func args). rewrite IH. now rewrite <- app_assoc.
Qed.

(** X5.  [_make_atom] on a predicate name and argument tokens never fails,
    and what it builds is taken apart again by [uncurry]: the head is the
    predicate's variable expression and the arguments are the tokens'
    variable expressions, in order. *)
Theorem make_atom_uncurry (pred : string) (args : list string) (last : string) :
  _make_atom (Str pred) (map Str (args ++ [last])) = OK (var_atom pred (args ++ [last])) /\
  var_atom pred (args ++ [last])
  = DrtApplicationExpression (var_atom pred args) (DrtVariableExpression (_make_Variable last)) /\
  uncurry (var_atom pred args) (DrtVariableExpression (_make_Variable last))
  = (DrtVariableExpression (_make_Variable pred),
     map (fun arg => DrtVariableExpression (_make_Variable arg)) (args ++ [last])).
Proof.
  split; [|split].
  - unfold _make_atom. cbn [as_variable_expression rbind]. apply make_atom_args_strs.
  - unfold var_atom, apply_args. now rewrite map_app, fold_left_app.
  - unfold uncurry, var_atom. rewrite uncurry_loop_apply_args. now rewrite map_app.
Qed.

(** ** Conditions *)

(** X6.  A [timex] condition whose functor is neither [date] nor [time]
    is rejected, and the exception names the keyword [timex], not the
    functor: the functor's own parentheses must be empty for the parser to
    get that far, otherwise it reports the token it found in place of the
    closing parenthesis. *)
Theorem timex_unknown_functor (self : BoxerDrsParser) (pe : M Expression)
  (indices : list (Z * Z)) (arg functor t : string) (rest : list string) :
  functor <> "date" -> functor <> "time" ->
  parse_condition self pe indices
    ("timex" :: "(" :: arg :: "," :: functor :: "(" :: ")" :: rest)
  = Raise (UnexpectedTokenException "timex" None) /\
  (t <> ")" ->
   parse_condition self pe indices
     ("timex" :: "(" :: arg :: "," :: functor :: "(" :: t :: rest)
   = Raise (UnexpectedTokenException t (Some ")"))).
Proof.
  intros Hd Ht. apply String.eqb_neq in Hd, Ht.
  unfold parse_condition, handle_condition. run.
  unfold _handle_timex, _handle_time_expression. run. rewrite Hd, Ht. run.
  split; [reflexivity|]. intros Hc. apply String.eqb_neq in Hc.
  unfold expect, assertToken. run. now rewrite Hc.
Qed.

Lemma timex_unknown_functor_witness :
  parse_condition default_parser (parse_Expression default_parser 0) []
    ["timex"; "("; "x0"; ","; "duration"; "("; ")"; ")"]
  = Raise (UnexpectedTokenException "timex" None).
Proof.
  apply (timex_unknown_functor default_parser (parse_Expression default_parser 0) []
           "x0" "duration" "" [")"]); discriminate.
Defined.

Lemma make_atom_one (pred a : string) :
  _make_atom (Str pred) [Str a] = OK (var_atom pred [a]).
Proof. reflexivity. Qed.

Lemma make_atom_two (pred a b : string) :
  _make_atom (Str pred) [Str a; Str b] = OK (var_atom pred [a; b]).
Proof. reflexivity. Qed.

Lemma make_atom_three (pred a b c : string) :
  _make_atom (Str pred) [Str a; Str b; Str c] = OK (var_atom pred [a; b; c]).
Proof. reflexivity. Qed.

#[local] Hint Rewrite make_atom_one make_atom_two make_atom_three : run.

Ltac index_step H :=
  lazymatch goal with
  | |- context [bind _parse_index_list ?k (?il ++ ?r)] =>
      let ix := fresh "ix" in
      let E := fresh "E" in
      destruct (H r) as [ix E]; rewrite (bind_OK _ _ _ _ _ E); clear E
  end.

(** X7.  A [timex] condition with a [date] gives the marker atom
    [r_date_1(arg)] first, then one binary atom for each slot that does not
    hold its placeholder, in the order polarity, year, month, day: a
    polarity other than [+] and [-] gives nothing, the colons of a year
    become underscores, and the index annotations of the slots are read
    and dropped. *)
Theorem timex_date_conditions (self : BoxerDrsParser) (pe : M Expression)
  (indices : list (Z * Z)) (arg pol year month day : string)
  (il1 il2 il3 il4 rest : list string) :
  index_annotation il1 -> index_annotation il2 ->
  index_annotation il3 -> index_annotation il4 ->
  handle_condition self pe "timex" indices
    ("(" :: arg :: "," :: "date" :: "(" ::
       il1 ++ pol :: "," :: il2 ++ year :: "," :: il3 ++ month :: "," :: il4 ++ day ::
       ")" :: ")" :: rest)
  = OK (Some (var_atom "r_date_1" [arg] :: date_conditions arg pol year month day), rest).
Proof.
  intros H1 H2 H3 H4. unfold handle_condition. simpl.
  unfold _handle_timex, _handle_time_expression, _handle_date, slot, date_conditions. run.
  index_step H1. run.
  destruct (String.eqb pol "+"); [|destruct (String.eqb pol "-")]; run;
    (index_step H2; run; destruct (String.eqb year "XXXX"); run;
     index_step H3; run; destruct (String.eqb month "XX"); run;
     index_step H4; run; destruct (String.eqb day "XX"); run; reflexivity).
Qed.

Lemma empty_index_annotation : index_annotation ["["; "]"; ":"].
Proof. intros rest. exists []. reflexivity. Qed.

Lemma timex_date_conditions_witness :
  handle_condition default_parser (parse_Expression default_parser 0) "timex" []
    ["("; "x0"; ","; "date"; "("; "["; "]"; ":"; "+"; ","; "["; "]"; ":"; "XXXX"; ",";
     "["; "1004"; "]"; ":"; "04"; ","; "["; "]"; ":"; "XX"; ")"; ")"]
  = OK (Some [var_atom "r_date_1" ["x0"]; var_atom "r_pol_2" ["x0"; "pos"];
              var_atom "r_month_2" ["x0"; "04"]], []).
Proof.
  apply (timex_date_conditions default_parser (parse_Expression default_parser 0) []
           "x0" "+" "XXXX" "04" "XX" ["["; "]"; ":"] ["["; "]"; ":"]
           ["["; "1004"; "]"; ":"] ["["; "]"; ":"] []);
    try apply empty_index_annotation.
  intros rest. exists [(0, 3)%Z]. reflexivity.
Defined.

(** ** Boxes *)





(** ** Question terms with several answer types *)

(** X9.  The loop of [_handle_whq] reads no comma: a [Category:Answer]
    list whose pairs are separated by commas is rejected at the second
    pair, the comma being taken for a category and the next token for the
    colon that should follow it. *)
Theorem whq_rejects_commas (self : BoxerDrsParser) (pe : M Expression)
  (indices : list (Z * Z)) (cat1 ans1 cat2 : string) (rest : list string) :
  cat1 <> "]" -> cat2 <> ":" ->
  _handle_whq self pe indices ("(" :: "[" :: cat1 :: ":" :: ans1 :: "," :: cat2 :: rest)
  = Raise (UnexpectedTokenException cat2 (Some ":")).
Proof.
  intros H1 H2. apply String.eqb_neq in H1, H2. unfold _handle_whq.
  rewrite run_bind_expect, run_bind_expect, run_bind_while. apply bind_Raise.
  cbn [length]. run. rewrite H1. simpl. unfold _handle_whq_answer at 1. run.
  assert (K : forall s : list string,
             bind (_handle_whq_answer s)
               (while_ (S (S (S (S (length rest))))) (next_is_not "]") _handle_whq_answer)
               ("," :: cat2 :: rest)
             = Raise (UnexpectedTokenException cat2 (Some ":"))).
  { intros s. unfold _handle_whq_answer at 1. run.
    unfold expect, assertToken. run. now rewrite H2. }
  destruct (String.eqb cat1 "des"); [|destruct (String.eqb cat1 "num")]; run;
    try apply K.
  destruct (String.eqb ans1 "cou"); run; apply K.
Qed.

Lemma whq_rejects_commas_witness :
  _handle_whq default_parser (parse_Expression default_parser 0) []
    ["("; "["; "des"; ":"; "per"; ","; "num"; ":"; "cou"; "]"]
  = Raise (UnexpectedTokenException "num" (Some ":")).
Proof. apply whq_rejects_commas; discriminate. Defined.

(** ** What holds of every tree the parser returns *)

Section Closure.

(** A property of expressions that every construction of the parser
    keeps. *)
Variable P : Expression -> Prop.
Hypothesis P_atom : forall pred args, P (var_atom pred args).
Hypothesis P_type_atom : forall t ref, P (type_atom "r" t (_make_Variable ref)).
Hypothesis P_negation : forall e, P e -> P (DrtNegatedExpression e).
Hypothesis P_binary : forall cls e1 e2, P e1 -> P e2 -> P (BinaryExpression cls e1 e2).
Hypothesis P_equality :
  forall a b, P (BinaryExpression DrtEqualityExpression
                   (DrtVariableExpression (_make_Variable a))
                   (DrtVariableExpression (_make_Variable b))).
Hypothesis P_box :
  forall refs conds, Forall P conds -> P (DRS (map _make_Variable refs) conds).

Variable self : BoxerDrsParser.
Variable pe : M Expression.
Hypothesis Hpe : post pe P.

Abbreviation Ps := (Forall P).
Abbreviation PsOpt := (ForallOpt P).

Lemma closure_atom1 pred a : post (lift (_make_atom (Str pred) [Str a])) P.
Proof. apply post_lift. intros e E. rewrite make_atom_one in E. injection E as <-. apply P_atom. Qed.

Lemma closure_atom2 pred a b : post (lift (_make_atom (Str pred) [Str a; Str b])) P.
Proof. apply post_lift. intros e E. rewrite make_atom_two in E. injection E as <-. apply P_atom. Qed.

Lemma closure_atom3 pred a b c :
  post (lift (_make_atom (Str pred) [Str a; Str b; Str c])) P.
Proof.
  apply post_lift. intros e E. rewrite make_atom_three in E. injection E as <-. apply P_atom.
Qed.

Lemma closure_append conds pred a b :
  Forall P conds ->
  post (bind (lift (_make_atom (Str pred) [Str a; Str b])) (fun atom => ret (conds ++ [atom])))
       Ps.
Proof.
  intros Hc. eapply post_bind; [apply closure_atom2|]. intros e He.
  apply post_ret. apply Forall_app. split; [exact Hc | now constructor].
Qed.

Lemma closure_slot placeholder pred arg conds :
  Forall P conds -> post (slot placeholder pred arg conds) Ps.
Proof.
  intros Hc. unfold slot. binds. ifs; [now apply closure_append | now apply post_ret].
Qed.

Lemma closure_date arg : post (_handle_date arg) Ps.
Proof.
  unfold _handle_date. binds.
  eapply post_bind with (Q := Ps).
  { ifs; [apply closure_append | apply closure_append | apply post_ret];
      exact (List.Forall_nil P). }
  intros conds Hc. binds.
  eapply post_bind with (Q := Ps).
  { ifs; [now apply closure_append | now apply post_ret]. }
  clear conds Hc. intros conds Hc. binds.
  eapply post_bind with (Q := Ps); [now apply closure_slot|].
  clear conds Hc. intros conds Hc. binds.
  eapply post_bind with (Q := Ps); [now apply closure_slot|].
  intros. now apply post_ret.
Qed.

Lemma closure_time arg : post (_handle_time arg) Ps.
Proof.
  unfold _handle_time.
  eapply post_bind with (Q := Ps); [apply closure_slot; exact (List.Forall_nil P)|].
  intros conds Hc. binds.
  eapply post_bind with (Q := Ps); [now apply closure_slot|].
  clear conds Hc. intros conds Hc. binds.
  eapply post_bind with (Q := Ps); [now apply closure_slot|].
  intros. now apply post_ret.
Qed.

Lemma closure_timex indices : post (_handle_timex indices) PsOpt.
Proof.
  unfold _handle_timex, _handle_time_expression. binds.
  assert (F : forall tok arg conds, Forall P conds ->
    post (bind (expect ")") (fun _ =>
          bind (lift (_make_atom (Str ("r_" +:+ tok +:+ "_1")) [Str arg])) (fun atom =>
          ret (Some ([atom] ++ conds))))) PsOpt).
  { intros tok arg conds Hc. binds. eapply post_bind; [apply closure_atom1|].
    intros e He. apply post_ret. simpl. now constructor. }
  eapply post_bind with (Q := PsOpt).
  - binds. cbv zeta. ifs.
    + eapply post_bind; [apply closure_date | intros; now apply F].
    + eapply post_bind; [apply closure_time | intros; now apply F].
    + now apply post_ret.
  - intros o Ho. binds. now apply post_ret.
Qed.

Lemma closure_binary cls : post (_make_binary_expression pe cls) P.
Proof.
  unfold _make_binary_expression. binds.
  eapply post_bind; [exact Hpe|]. intros e1 H1. binds.
  eapply post_bind; [exact Hpe|]. intros e2 H2. binds.
  apply post_ret. now apply P_binary.
Qed.

Lemma closure_whq indices : post (_handle_whq self pe indices) P.
Proof.
  unfold _handle_whq. binds. apply post_bind_any. intros ans_types. binds.
  eapply post_bind; [exact Hpe|]. intros d1 H1. binds.
  eapply post_bind; [exact Hpe|]. intros d2 H2. binds.
  rewrite whq_atoms. eapply post_bind with (Q := Ps).
  - apply post_lift. intros l E. injection E as <-.
    apply List.Forall_forall. intros e He. apply in_map_iff in He.
    destruct He as (t & <- & _). apply P_type_atom.
  - intros atoms Ha. apply post_ret. apply P_binary; [|now apply P_binary].
    apply (P_box [] atoms Ha).
Qed.

Lemma closure_condition tok indices : post (handle_condition self pe tok indices) PsOpt.
Proof.
  assert (W : forall m : M Expression, post m P ->
                post (bind m (fun e => ret (Some [e]))) PsOpt).
  { intros m Hm. eapply post_bind; [exact Hm|]. intros e He.
    apply post_ret. simpl. now constructor. }
  unfold handle_condition. ifs.
  - binds. eapply post_bind; [exact Hpe|]. intros e He. binds.
    apply post_ret. simpl. constructor; [now apply P_negation | constructor].
  - apply W, closure_binary.
  - apply W, closure_binary.
  - apply W. unfold _handle_eq. binds. apply post_ret, P_equality.
  - apply W. unfold _handle_prop. binds. eapply post_bind; [exact Hpe|].
    intros e He. binds. now apply post_ret.
  - apply W. unfold _handle_pred. binds. apply closure_atom1.
  - apply W. unfold _handle_named. binds. apply closure_atom1.
  - apply W. unfold _handle_rel. binds. apply closure_atom2.
  - apply closure_timex.
  - apply W. unfold _handle_card. binds. apply closure_atom3.
  - apply W, closure_whq.
  - now apply post_ret.
Qed.

Lemma closure_drs : post (parse_drs self pe) P.
Proof.
  unfold parse_drs. binds.
  eapply post_bind with (Q := fun refs => exists rs, refs = map _make_Variable rs).
  { apply post_while; [|now exists []]. intros refs [rs ->]. unfold parse_drs_ref.
    binds. apply post_ret. exists (rs ++ [a2]). now rewrite map_app. }
  intros refs [rs ->]. binds.
  eapply post_bind with (Q := Ps).
  - apply post_while; [|exact (List.Forall_nil P)]. intros conds Hc. unfold parse_drs_cond.
    binds. eapply post_bind with (Q := Ps).
    + unfold parse_condition. binds.
      eapply post_bind; [apply closure_condition|].
      intros [l|] Hl; [now apply post_ret | apply post_raise].
    + intros new Hn. binds. apply post_ret. apply Forall_app. now split.
  - intros conds Hc. binds. apply post_ret. now apply P_box.
Qed.

Lemma closure_body : post (parse_Expression_body self pe) P.
Proof.
  unfold parse_Expression_body, handle, handle_drs. binds.
  eapply post_bind with (Q := fun o => match o with Some e => P e | None => True end).
  - ifs.
    + eapply post_bind; [apply closure_drs|]. intros e He. now apply post_ret.
    + eapply post_bind; [apply closure_binary|]. intros e He. now apply post_ret.
    + eapply post_bind; [apply closure_binary|]. intros e He. now apply post_ret.
    + now apply post_ret.
  - intros [e|] He; [now apply post_ret | apply post_raise].
Qed.

End Closure.

(** An induction principle for what the parser returns: a property
    that holds of every atom built from tokens and of every equality of
    two tokens' variables, and that negations, binary expressions and
    boxes with referents made by [_make_Variable] keep, holds of every
    expression [parse_Expression] and [parse] return. *)
Lemma parsed_expression_ind (P : Expression -> Prop) :
  (forall pred args, P (var_atom pred args)) ->
  (forall t ref, P (type_atom "r" t (_make_Variable ref))) ->
  (forall e, P e -> P (DrtNegatedExpression e)) ->
  (forall cls e1 e2, P e1 -> P e2 -> P (BinaryExpression cls e1 e2)) ->
  (forall a b, P (BinaryExpression DrtEqualityExpression
                    (DrtVariableExpression (_make_Variable a))
                    (DrtVariableExpression (_make_Variable b)))) ->
  (forall refs conds, Forall P conds -> P (DRS (map _make_Variable refs) conds)) ->
  forall self,
    (forall fuel toks e rest, parse_Expression self fuel toks = OK (e, rest) -> P e) /\
    (forall data e, parse self data = OK e -> P e).
Proof.
  intros H1 H2 H3 H4 H5 H6 self.
  assert (F : forall fuel, post (parse_Expression self fuel) P).
  { induction fuel as [|fuel IH]; [intros toks e rest E; discriminate E|].
    now apply closure_body. }
  split; [intros fuel toks e rest E; exact (F fuel _ _ _ E)|].
  intros data e E. unfold parse in E.
  destruct (process data (Bare "")) as [toks| |]; try discriminate E. cbn [rbind] in E.
  destruct (parse_Expression self (S (length toks)) toks) as [[e' rest]| |] eqn:Q;
    try discriminate E.
  cbn [rbind fst] in E. injection E as <-. exact (F _ _ _ _ Q).
Qed.

(** ** Variables of parsed trees *)

Lemma make_Variable_clean (s : string) : clean (_make_Variable s) = true.
Proof.
  unfold clean, _make_Variable. destruct (Py.startswith s "_G") eqn:E; cbn [name].
  - reflexivity.
  - now rewrite E.
Qed.

Lemma apply_args_clean (args : list string) :
  forall func, vars_clean func = true ->
    vars_clean (apply_args func
                  (map (fun arg => DrtVariableExpression (_make_Variable arg)) args)) = true.
Proof.
  induction args as [|a args IH]; intros func Hf; [exact Hf|].
  cbn [map apply_args fold_left]. apply IH. cbn [vars_clean].
  now rewrite Hf, make_Variable_clean.
Qed.

(** X10.  No variable of a tree the parser returns (referent, predicate
    or argument) has a name that begins with the internal prefix [_G]:
    every one of them is made by [_make_Variable], or is a relation name
    that begins with [r]. *)
Theorem parsed_variables_clean (self : BoxerDrsParser) :
  (forall fuel toks e rest,
     parse_Expression self fuel toks = OK (e, rest) -> vars_clean e = true) /\
  (forall data e, parse self data = OK e -> vars_clean e = true).
Proof.
  apply (parsed_expression_ind (fun e => vars_clean e = true)).
  - intros pred args. apply apply_args_clean. apply make_Variable_clean.
  - intros t ref. unfold type_atom. cbn [vars_clean]. now rewrite make_Variable_clean.
  - intros e He. exact He.
  - intros cls e1 e2 H1 H2. cbn [vars_clean]. now rewrite H1, H2.
  - intros a b. cbn [vars_clean]. now rewrite !make_Variable_clean.
  - intros refs conds Hc. cbn [vars_clean]. apply andb_true_iff. split.
    + apply forallb_forall. intros v Hv. apply in_map_iff in Hv.
      destruct Hv as (r & <- & _). apply make_Variable_clean.
    + apply forallb_forall. rewrite List.Forall_forall in Hc. exact Hc.
Qed.

Lemma parsed_variables_clean_witness :
  parse default_parser "drs([[1001]:_G1],[[1002]:pred(_G1,_Gdog,n,0),[]:eq(_G1,_G2)])"
  = OK (DRS [Variable_ "z1"]
            [atom "n__Gdog_1" ["z1"];
             BinaryExpression DrtEqualityExpression
               (DrtVariableExpression (Variable_ "z1"))
               (DrtVariableExpression (Variable_ "z2"))]) /\
  vars_clean (DRS [Variable_ "z1"]
                  [atom "n__Gdog_1" ["z1"];
                   BinaryExpression DrtEqualityExpression
                     (DrtVariableExpression (Variable_ "z1"))
                     (DrtVariableExpression (Variable_ "z2"))]) = true.
Proof.
  assert (E : parse default_parser
                "drs([[1001]:_G1],[[1002]:pred(_G1,_Gdog,n,0),[]:eq(_G1,_G2)])"
              = OK (DRS [Variable_ "z1"]
                        [atom "n__Gdog_1" ["z1"];
                         BinaryExpression DrtEqualityExpression
                           (DrtVariableExpression (Variable_ "z1"))
                           (DrtVariableExpression (Variable_ "z2"))]))
    by (vm_compute; reflexivity).
  split; [exact E|]. exact (proj2 (parsed_variables_clean default_parser) _ _ E).
Defined.

(** ** The parser and the compound-noun rewrite together *)

Lemma arity_digit_nn : arity_digit "r_nn_2" = Some 2%nat.
Proof. reflexivity. Qed.

Lemma arity_ok_shapes (e : Expression) :
  arity_ok e = true -> atom_shaped e = true /\ nn_binary e = true.
Proof.
  induction e as [refs conds IH|term IH|variable term IH|cls first second IH1 IH2|variable
                 |function argument _ _] using Expression_induction; intros H.
  - cbn [arity_ok atom_shaped nn_binary] in *.
    rewrite forallb_forall in H. rewrite List.Forall_forall in IH.
    split; apply forallb_forall; intros c Hc; now apply (IH c Hc (H c Hc)).
  - now apply IH.
  - now apply IH.
  - cbn [arity_ok atom_shaped nn_binary] in *. apply andb_true_iff in H.
    destruct H as [H1 H2]. destruct (IH1 H1) as [-> ->], (IH2 H2) as [-> ->]. now split.
  - now split.
  - cbn [arity_ok atom_shaped nn_binary] in *.
    destruct (uncurry function argument) as [func args].
    unfold atom_ok in H. destruct func as [| | | |pred|]; try discriminate H.
    apply andb_true_iff in H. destruct H as [Hk Ha]. cbn [is_variable_expression variable_name].
    split; [exact Ha|].
    destruct (String.eqb_spec (name pred) "r_nn_2") as [E|]; [|reflexivity].
    rewrite E, arity_digit_nn in Hk. apply Nat.eqb_eq in Hk. rewrite <- Hk. reflexivity.
Qed.

Lemma simplify_atom (args : list Expression) :
  forallb is_variable_expression args = true ->
  forall func, is_variable_expression func = true ->
    simplify (apply_args func args) = apply_args func args.
Proof.
  induction args as [|a args IH] using rev_ind; intros Ha func Hf.
  - now destruct func.
  - unfold apply_args. rewrite fold_left_app. cbn [fold_left simplify].
    rewrite forallb_app in Ha. apply andb_true_iff in Ha. destruct Ha as [Ha1 Ha2].
    fold (apply_args func args). rewrite (IH Ha1 func Hf).
    simpl in Ha2. now destruct a.
Qed.

(** The merge flattening keeps the atoms as they are. *)
Lemma simplify_arity_ok (e : Expression) : arity_ok e = true -> arity_ok (simplify e) = true.
Proof.
  induction e as [refs conds IH|term IH|variable term IH|cls first second IH1 IH2|variable
                 |function argument _ _] using Expression_induction; intros H.
  - cbn [arity_ok simplify] in *. rewrite forallb_forall in H.
    rewrite List.Forall_forall in IH. apply forallb_forall. intros c Hc.
    apply in_map_iff in Hc. destruct Hc as (c0 & <- & Hc0). now apply IH, H.
  - now apply IH.
  - now apply IH.
  - cbn [arity_ok simplify] in *. apply andb_true_iff in H. destruct H as [H1 H2].
    specialize (IH1 H1). specialize (IH2 H2).
    set (sf := simplify first) in *. set (ss := simplify second) in *.
    assert (G : arity_ok (BinaryExpression cls sf ss) = true)
      by (cbn [arity_ok]; now rewrite IH1, IH2).
    destruct cls; try exact G. destruct sf as [r1 c1| | | | |]; try exact G.
    destruct ss as [r2 c2| | | | |]; try exact G.
    cbn [arity_ok] in *. rewrite forallb_app. now rewrite IH1, IH2.
  - exact H.
  - pose proof H as H0. cbn [arity_ok] in H. unfold uncurry in H.
    destruct (uncurry_loop function [argument]) as [func args] eqn:U.
    destruct (uncurry_loop_spec _ _ _ _ U) as (pre & -> & ->).
    unfold atom_ok in H. destruct func as [| | | |pred|]; try discriminate H.
    apply andb_true_iff in H. destruct H as [_ Ha].
    assert (Q : DrtApplicationExpression (apply_args (DrtVariableExpression pred) pre) argument
                = apply_args (DrtVariableExpression pred) (pre ++ [argument])).
    { unfold apply_args. now rewrite fold_left_app. }
    rewrite Q in *. rewrite simplify_atom by (exact Ha || reflexivity). exact H0.
Qed.

(** X11.  The compound-noun rewrite never fails on what the parser
    returns: every atom named [r_nn_2] the parser builds comes from a [rel]
    term and has two arguments, so for any term that parses, [_nn] returns
    the folded tree, in which no atom named [r_nn_2] is left; and the same
    holds after a simplification that keeps the atoms well-formed. *)
Theorem parse_then_nn (self : BoxerDrsParser) (data : string) (e : Expression) :
  parse self data = OK e ->
  _nn e = OK (fold_nn e) /\
  ~ In "r_nn_2" (atom_preds (fold_nn e)) /\
  forall simplify_ : Expression -> Expression,
    (forall e', arity_ok e' = true -> arity_ok (simplify_ e') = true) ->
    _clean_drs (simplify_ e) = OK (fold_nn (simplify_ e)).
Proof.
  intros E.
  assert (A : arity_ok e = true).
  { unfold parse in E.
    destruct (process data (Bare "")) as [toks| |]; try discriminate E. cbn [rbind] in E.
    destruct (parse_Expression self (S (length toks)) toks) as [[e' rest]| |] eqn:Q;
      try discriminate E.
    cbn [rbind fst] in E. injection E as <-. exact (post_parse_Expression self _ _ _ _ Q). }
  assert (N : forall x, arity_ok x = true ->
                _nn x = OK (fold_nn x) /\ ~ In "r_nn_2" (atom_preds (fold_nn x))).
  { intros x Hx. destruct (arity_ok_shapes x Hx) as [Hs Hb].
    pose proof (nn_atom_shaped x Hs) as Hn. rewrite Hb in Hn.
    split; [exact Hn | now apply fold_nn_no_nn]. }
  destruct (N e A) as [N1 N2]. split; [exact N1|]. split; [exact N2|].
  intros simplify_ Hs. unfold _clean_drs. apply (N (simplify_ e)), Hs, A.
Qed.

Lemma parse_then_nn_witness :
  parse default_parser "smerge(drs([[]:x],[]),drs([],[[]:rel(x,y,nn,0)]))"
  = OK (BinaryExpression ConcatenationDRS (DRS [Variable_ "x"] [])
          (DRS [] [atom "r_nn_2" ["x"; "y"]])) /\
  _clean_drs (simplify (BinaryExpression ConcatenationDRS (DRS [Variable_ "x"] [])
                          (DRS [] [atom "r_nn_2" ["x"; "y"]])))
  = OK folded_drs.
Proof.
  assert (E : parse default_parser "smerge(drs([[]:x],[]),drs([],[[]:rel(x,y,nn,0)]))"
              = OK (BinaryExpression ConcatenationDRS (DRS [Variable_ "x"] [])
                      (DRS [] [atom "r_nn_2" ["x"; "y"]])))
    by (vm_compute; reflexivity).
  split; [exact E|].
  exact (proj2 (proj2 (parse_then_nn _ _ _ E)) simplify simplify_arity_ok).
Defined.

(** ** More on the compound-noun rewrite *)

Lemma fold_nn_other (function argument : Expression) (pred : Var) (args : list Expression) :
  uncurry function argument = (DrtVariableExpression pred, args) ->
  String.eqb (name pred) "r_nn_2" = false ->
  fold_nn (DrtApplicationExpression function argument)
  = DrtApplicationExpression function argument.
Proof.
  intros U En. unfold uncurry in U.
  destruct (uncurry_loop_spec _ _ _ _ U) as (pre & _ & ->).
  destruct pre as [|arg1 pre] using rev_ind; [reflexivity|].
  unfold apply_args. rewrite fold_left_app. cbn [fold_left fold_nn].
  destruct pre as [|arg0 pre] using rev_ind; [cbn [fold_left]; now rewrite En|].
  rewrite fold_left_app. reflexivity.
Qed.

Lemma fold_nn_without_nn (e : Expression) :
  atom_shaped e = true -> ~ In "r_nn_2" (atom_preds e) ->
  fold_nn e = e /\ nn_binary e = true.
Proof.
  induction e as [refs conds IH|term IH|variable term IH|cls first second IH1 IH2|variable
                 |function argument _ _] using Expression_induction; intros Hs Hn.
  - cbn [atom_shaped atom_preds fold_nn nn_binary] in *.
    rewrite forallb_forall in Hs. rewrite List.Forall_forall in IH.
    assert (K : forall c, In c conds -> fold_nn c = c /\ nn_binary c = true).
    { intros c Hc. apply (IH c Hc (Hs c Hc)). intros Hp. apply Hn.
      apply in_flat_map. now exists c. }
    split.
    + f_equal. rewrite <- (map_id conds) at 2. apply map_ext_in.
      intros c Hc. now apply K.
    + apply forallb_forall. intros c Hc. now apply K.
  - cbn [atom_shaped atom_preds fold_nn nn_binary] in *.
    destruct (IH Hs Hn) as [-> ->]. now split.
  - cbn [atom_shaped atom_preds fold_nn nn_binary] in *.
    destruct (IH Hs Hn) as [-> ->]. now split.
  - cbn [atom_shaped atom_preds fold_nn nn_binary] in *.
    apply andb_true_iff in Hs. destruct Hs as [Hs1 Hs2].
    rewrite in_app_iff in Hn.
    destruct (IH1 Hs1 ltac:(tauto)) as [-> ->], (IH2 Hs2 ltac:(tauto)) as [-> ->].
    now split.
  - now split.
  - cbn [atom_shaped atom_preds nn_binary] in *.
    destruct (uncurry function argument) as [func args] eqn:U.
    apply andb_true_iff in Hs. destruct Hs as [Hf Ha].
    destruct func as [| | | |pred|]; try discriminate Hf.
    cbn [fst variable_name] in *.
    assert (En : String.eqb (name pred) "r_nn_2" = false).
    { apply String.eqb_neq. intros E. apply Hn. now left. }
    rewrite En. split; [|reflexivity]. now apply (fold_nn_other _ _ pred args).
Qed.

Lemma fold_nn_shaped (e : Expression) : atom_shaped e = true -> atom_shaped (fold_nn e) = true.
Proof.
  induction e as [refs conds IH|term IH|variable term IH|cls first second IH1 IH2|variable
                 |function argument _ _] using Expression_induction; intros Hs.
  - cbn [atom_shaped fold_nn] in *. rewrite forallb_forall in Hs.
    rewrite List.Forall_forall in IH. apply forallb_forall. intros c Hc.
    apply in_map_iff in Hc. destruct Hc as (c0 & <- & Hc0). now apply IH, Hs.
  - now apply IH.
  - now apply IH.
  - cbn [atom_shaped fold_nn] in *. apply andb_true_iff in Hs. destruct Hs as [H1 H2].
    now rewrite (IH1 H1), (IH2 H2).
  - exact Hs.
  - pose proof Hs as Hs0. cbn [atom_shaped] in Hs. unfold uncurry in Hs.
    destruct (uncurry_loop function [argument]) as [func args] eqn:U.
    apply andb_true_iff in Hs. destruct Hs as [Hf Ha].
    destruct func as [| | | |pred|]; try discriminate Hf.
    destruct (String.eqb (name pred) "r_nn_2") eqn:En;
      [|now rewrite (fold_nn_other _ _ pred args U En)].
    destruct (uncurry_loop_spec _ _ _ _ U) as (pre & Eargs & ->).
    destruct pre as [|arg1 pre] using rev_ind; [exact Hs0|].
    unfold apply_args. rewrite fold_left_app. cbn [fold_left fold_nn].
    destruct pre as [|arg0 pre] using rev_ind.
    + cbn [fold_left]. rewrite En. cbn [atom_shaped]. subst args.
      simpl in Ha. apply andb_true_iff in Ha. destruct Ha as [Ha1 Ha2].
      apply andb_true_iff in Ha2. destruct Ha2 as [Ha2 _].
      destruct arg1; try discriminate Ha1. destruct argument; try discriminate Ha2.
      reflexivity.
    + rewrite fold_left_app. cbn [fold_left].
      unfold apply_args in Hs0. rewrite !fold_left_app in Hs0. exact Hs0.
Qed.

(** X12.  On a tree whose application chains are atoms, the compound-noun
    rewrite is idempotent, and it is the identity when no atom is named
    [r_nn_2]: what [_nn] returns, [_nn] returns unchanged. *)
Theorem nn_idempotent (e e' : Expression) :
  atom_shaped e = true ->
  _nn e = OK e' ->
  _nn e' = OK e' /\ (~ In "r_nn_2" (atom_preds e) -> e' = e).
Proof.
  intros Hs E. pose proof (nn_atom_shaped e Hs) as H. rewrite E in H.
  destruct (nn_binary e) eqn:Hb; [|discriminate H]. injection H as ->.
  split.
  - pose proof (fold_nn_shaped e Hs) as Hs'.
    destruct (fold_nn_without_nn (fold_nn e) Hs' (fold_nn_no_nn e Hs Hb)) as [F B].
    pose proof (nn_atom_shaped (fold_nn e) Hs') as H. rewrite B, F in H. exact H.
  - intros Hn. now apply fold_nn_without_nn.
Qed.

Lemma nn_idempotent_witness :
  _nn (DRS [] [atom "r_nn_2" ["x0"; "x1"]; atom "n_dog_1" ["x0"]])
  = OK (DRS [] [eq_condition ("x0", "x1"); atom "n_dog_1" ["x0"]]) /\
  _nn (DRS [] [eq_condition ("x0", "x1"); atom "n_dog_1" ["x0"]])
  = OK (DRS [] [eq_condition ("x0", "x1"); atom "n_dog_1" ["x0"]]).
Proof.
  assert (E : _nn (DRS [] [atom "r_nn_2" ["x0"; "x1"]; atom "n_dog_1" ["x0"]])
              = OK (DRS [] [eq_condition ("x0", "x1"); atom "n_dog_1" ["x0"]]))
    by reflexivity.
  split; [exact E|].
  refine (proj1 (nn_idempotent _ _ _ E)). reflexivity.
Defined.

Lemma uncurry_loop_head (func : Expression) (acc : list Expression) :
  (forall f a, func <> DrtApplicationExpression f a) ->
  uncurry_loop func acc = (func, acc).
Proof. intros H. destruct func; try reflexivity. now elim (H func1 func2). Qed.

(** X13.  [_nn] reads [func.variable.name] off the head of every
    application chain before anything else: a chain whose head is a box, a
    negation or a binary expression makes it fail with [AttributeError],
    whatever the arguments are. *)
Theorem nn_attribute_error (func : Expression) (args : list Expression) (last : Expression) :
  variable_name func = Raise AttributeError ->
  (forall f a, func <> DrtApplicationExpression f a) ->
  _nn (DrtApplicationExpression (apply_args func args) last) = Raise AttributeError.
Proof.
  intros Hv Hf. rewrite nn_unfold_application. unfold uncurry.
  rewrite uncurry_loop_apply_args, (uncurry_loop_head func _ Hf). now rewrite Hv.
Qed.

Lemma nn_attribute_error_witness :
  _nn (DrtApplicationExpression (DRS [] []) (DrtVariableExpression (Variable_ "x0")))
  = Raise AttributeError.
Proof.
  apply (nn_attribute_error (DRS [] []) [] (DrtVariableExpression (Variable_ "x0")));
    [reflexivity | discriminate].
Defined.

(** ** The demultiplexer on well-formed output *)

Lemma append_nil (t : string) : "" +:+ t = t.
Proof. reflexivity. Qed.

Lemma append_cons (c : ascii) (s t : string) : String c s +:+ t = String c (s +:+ t).
Proof. reflexivity. Qed.

Ltac appends := rewrite ?append_cons, ?append_nil.

Lemma append_append (a b c : string) : (a +:+ b) +:+ c = a +:+ b +:+ c.
Proof. induction a as [|x a IH]; appends; [reflexivity | now rewrite IH]. Qed.

Lemma index_app_r (s t : string) (c : ascii) :
  Py.index s c = None ->
  Py.index (s +:+ t) c = option_map (Nat.add (String.length s)) (Py.index t c).
Proof.
  induction s as [|d s IH]; appends; simpl; intros H;
    [now destruct (Py.index t c)|].
  destruct (Ascii.eqb d c); [discriminate|].
  destruct (Py.index s c); [discriminate|]. rewrite (IH eq_refl).
  now destruct (Py.index t c).
Qed.

Lemma substring_app_skip (a b : string) (n m : nat) :
  substring (String.length a + n) m (a +:+ b) = substring n m b.
Proof. induction a as [|c a IH]; appends; simpl; [reflexivity | exact IH]. Qed.

Lemma substring_prefix (a b : string) : substring 0 (String.length a) (a +:+ b) = a.
Proof.
  induction a as [|c a IH]; appends; simpl; [now destruct b | now rewrite IH].
Qed.

Lemma prefix_app (p s : string) : String.prefix p (p +:+ s) = true.
Proof.
  induction p as [|c p IH]; appends; simpl; [now destruct s|].
  destruct (ascii_dec c c); [exact IH | contradiction].
Qed.

Lemma absent_index (c : ascii) (s : string) : absent c s = true -> Py.index s c = None.
Proof. unfold absent. now destruct (Py.index s c). Qed.

Lemma discourse_id_of_unquote (line : string) :
  discourse_id_of line =
  (comma_idx <~ or_raise (Py.index line ",") ValueError ;;
   discourse_id_ <~ unquote (Py.slice line 3 comma_idx) ;;
   OK (discourse_id_, comma_idx)).
Proof.
  unfold discourse_id_of, unquote. destruct (Py.index line ","); [|reflexivity].
  cbn [or_raise rbind]. now destruct (Py.first_char _).
Qed.

Lemma id_line (id drs_id tail : string) :
  absent "," id = true -> absent ")" id = true -> absent ")" drs_id = true ->
  exists comma_idx close_idx,
    Py.startswith ("id(" +:+ id +:+ "," +:+ drs_id +:+ ")" +:+ tail) "id(" = true /\
    Py.index ("id(" +:+ id +:+ "," +:+ drs_id +:+ ")" +:+ tail) "," = Some comma_idx /\
    Py.slice ("id(" +:+ id +:+ "," +:+ drs_id +:+ ")" +:+ tail) 3 comma_idx = id /\
    Py.index ("id(" +:+ id +:+ "," +:+ drs_id +:+ ")" +:+ tail) ")" = Some close_idx /\
    Py.slice ("id(" +:+ id +:+ "," +:+ drs_id +:+ ")" +:+ tail) (comma_idx + 1) close_idx
    = drs_id.
Proof.
  intros H1 H2 H3. apply absent_index in H1, H2, H3.
  exists (3 + String.length id)%nat, (3 + String.length id + 1 + String.length drs_id)%nat.
  split; [apply prefix_app|]. split.
  { appends. simpl. rewrite (index_app_r _ _ _ H1). appends. simpl.
    now rewrite Nat.add_0_r. }
  split.
  { unfold Py.slice.
    replace (3 + String.length id - 3)%nat with (String.length id) by lia.
    appends. simpl. apply substring_prefix. }
  split.
  { appends. simpl. rewrite (index_app_r _ _ _ H2). appends. simpl.
    rewrite (index_app_r _ _ _ H3). appends. simpl. do 4 f_equal. lia. }
  unfold Py.slice.
  replace (3 + String.length id + 1 + String.length drs_id - (3 + String.length id + 1))%nat
    with (String.length drs_id) by lia.
  appends. simpl. rewrite substring_app_skip. appends. simpl. apply substring_prefix.
Qed.

Lemma term_line (t : string) :
  Py.endswith (t +:+ ").") ")." = true /\ Py.drop_last (t +:+ ").") 2 = t.
Proof.
  unfold Py.endswith, Py.drop_last. rewrite length_append. simpl String.length.
  replace (String.length t + 2 - 2)%nat with (String.length t + 0)%nat by lia.
  split.
  - rewrite substring_app_skip.
    replace (2 <=? String.length t + 2)%nat with true
      by (symmetry; apply Nat.leb_le; lia).
    reflexivity.
  - rewrite Nat.add_0_r. apply substring_prefix.
Qed.

Section Blocks.

Variable simplify : Expression -> Expression.
Variable lines : list string.
Variable occur_index_ : bool.
Variable use_disc_id : bool.

Abbreviation step_ := (step simplify lines occur_index_ use_disc_id).
Abbreviation loop_ := (loop simplify lines occur_index_ use_disc_id).
Abbreviation reaches_ := (reaches simplify lines occur_index_ use_disc_id).
Abbreviation read_block_ := (read_block simplify occur_index_ use_disc_id).
Abbreviation read_blocks_ := (read_blocks simplify occur_index_ use_disc_id).

Lemma step_block (done rest : list string) (b : Block) (d : gmap string Expression) :
  lines = done ++ lines_of b ++ rest ->
  well_formed b = true ->
  step_ (length done) d
  = (d' <~ read_block_ d b ;; OK (length done + 8 + 1, d')%nat).
Proof.
  intros L W. unfold well_formed in W.
  repeat (apply andb_true_iff in W; destruct W as [W ?]).
  destruct b as [id drs_id tail fill1 header fill2 term after]. cbn [blk_id blk_drs_id
    blk_tail blk_fill1 blk_header blk_fill2 blk_term blk_after] in *.
  destruct fill1 as [|a1 [|a2 [|a3 [|]]]]; try discriminate.
  destruct fill2 as [|b1 [|b2 [|b3 [|]]]]; try discriminate.
  unfold lines_of in L. cbn [blk_id blk_drs_id blk_tail blk_fill1 blk_header blk_fill2
    blk_term blk_after app] in L.
  destruct (id_line id drs_id tail) as (comma_idx & close_idx & S0 & C & I & P & D);
    try assumption.
  destruct (term_line term) as [E8 T8].
  assert (L0 : lines !! length done
               = Some ("id(" +:+ id +:+ "," +:+ drs_id +:+ ")" +:+ tail)).
  { rewrite L. now rewrite list_lookup_middle. }
  assert (L4 : lines !! (length done + 4)%nat
               = Some ("sem(" +:+ drs_id +:+ "," +:+ header)).
  { rewrite L. rewrite lookup_app_r by lia.
    now replace (length done + 4 - length done)%nat with 4%nat by lia. }
  assert (L8 : lines !! (length done + 8)%nat = Some (term +:+ ").")).
  { rewrite L. rewrite lookup_app_r by lia.
    now replace (length done + 8 - length done)%nat with 8%nat by lia. }
  unfold step. rewrite L0. cbn [or_raise rbind]. rewrite S0.
  unfold parse_discourse, read_block. cbn [blk_id blk_term].
  rewrite discourse_id_of_unquote, C. cbn [or_raise rbind]. rewrite I.
  destruct (unquote id) as [key| |]; try reflexivity. cbn [rbind].
  rewrite P. cbn [or_raise rbind]. rewrite D, L4. cbn [or_raise rbind].
  replace ("sem(" +:+ drs_id +:+ "," +:+ header)
    with (("sem(" +:+ drs_id +:+ ",") +:+ header)
    by (now rewrite !append_append).
  unfold Py.startswith at 1. rewrite prefix_app. cbn [assert rbind].
  rewrite L8. cbn [or_raise rbind]. rewrite E8, T8. cbn [assert rbind].
  destruct (parse _ _) as [drs| |]; try reflexivity. cbn [rbind].
  destruct (_clean_drs _) as [drs'| |]; reflexivity.
Qed.

Lemma skip_lines (junk : list string) :
  forall (done rest : list string) (d : gmap string Expression),
    lines = done ++ junk ++ rest ->
    forallb no_id_line junk = true ->
    reaches_ (length done) d (length done + length junk)%nat d.
Proof.
  induction junk as [|j junk IH]; intros done rest d L J.
  - cbn [length]. rewrite Nat.add_0_r. apply reaches_here.
  - cbn [forallb] in J. apply andb_true_iff in J. destruct J as [J0 J].
    apply reaches_next with (i' := (length done + 1)%nat) (d' := d).
    + rewrite L, !length_app. cbn [length]. lia.
    + assert (L0 : lines !! length done = Some j)
        by (rewrite L, <- app_comm_cons; now apply list_lookup_middle).
      unfold step. rewrite L0. cbn [or_raise rbind].
      unfold no_id_line in J0. apply negb_true_iff in J0. now rewrite J0.
    + replace (length done + length (j :: junk))%nat
        with (length (done ++ [j]) + length junk)%nat
        by (rewrite length_app; cbn [length]; lia).
      replace (length done + 1)%nat with (length (done ++ [j]))
        by (rewrite length_app; reflexivity).
      apply (IH (done ++ [j]) rest d); [|exact J].
      rewrite L, <- app_assoc. reflexivity.
Qed.

Lemma lines_of_split (b : Block) :
  well_formed b = true ->
  exists head,
    lines_of b = head ++ blk_after b /\ length head = 9%nat /\
    forallb no_id_line (blk_after b) = true.
Proof.
  intros W. unfold well_formed in W.
  repeat (apply andb_true_iff in W; destruct W as [W ?]).
  destruct b as [id drs_id tail fill1 header fill2 term after]. cbn [blk_id blk_drs_id
    blk_tail blk_fill1 blk_header blk_fill2 blk_term blk_after] in *.
  destruct fill1 as [|a1 [|a2 [|a3 [|]]]]; try discriminate.
  destruct fill2 as [|b1 [|b2 [|b3 [|]]]]; try discriminate.
  eexists [_; _; _; _; _; _; _; _; _]. split; [reflexivity|]. now split.
Qed.

Lemma loop_blocks (blocks : list Block) :
  forall (done : list string) (d : gmap string Expression) (n : nat),
    lines = done ++ flat_map lines_of blocks ->
    forallb well_formed blocks = true ->
    (length lines - length done < n)%nat ->
    loop_ n (length done) d = read_blocks_ d blocks.
Proof.
  induction blocks as [|b blocks IH]; intros done d n L W Hn.
  - destruct n as [|n]; [lia|]. cbn [loop read_blocks].
    cbn [flat_map] in L. rewrite app_nil_r in L. rewrite L, Nat.ltb_irrefl. reflexivity.
  - cbn [forallb] in W. apply andb_true_iff in W. destruct W as [Wb W].
    cbn [flat_map] in L.
    destruct (lines_of_split b Wb) as (head & Eb & Hh & Ja).
    destruct n as [|n]; [lia|]. cbn [loop read_blocks].
    assert (Hlt : (length done <? length lines)%nat = true).
    { apply Nat.ltb_lt. rewrite L, !length_app, Eb, length_app. lia. }
    rewrite Hlt, (step_block done (flat_map lines_of blocks) b d L Wb).
    destruct (read_block_ d b) as [d'| |]; cbn [rbind]; try reflexivity.
    assert (L' : lines = (done ++ head) ++ blk_after b ++ flat_map lines_of blocks).
    { rewrite L, Eb, <- !app_assoc. reflexivity. }
    pose proof (skip_lines (blk_after b) (done ++ head) _ d' L' Ja) as R.
    destruct (loop_reaches _ _ _ _ _ _ _ _ R n) as (n' & Hn' & E).
    { rewrite L, !length_app, Eb, !length_app in *. lia. }
    replace (length done + 8 + 1)%nat with (length (done ++ head))
      by (rewrite length_app; lia).
    rewrite E.
    replace (length (done ++ head) + length (blk_after b))%nat
      with (length (done ++ lines_of b)) in *
      by (rewrite Eb, !length_app; lia).
    apply IH; [|exact W|exact Hn'].
    rewrite L, <- app_assoc. reflexivity.
Qed.

End Blocks.

(** X14.  On output that is some lines without a leading [id(] followed by
    well-formed discourses, [_parse_to_drs_dict] is the left-to-right fold of
    [read_block]: each discourse adds the cleaned, simplified parse of its
    term under its unquoted identifier, a later discourse overwrites an
    earlier one with the same identifier, and the first failure ends the
    call.  The eight lines under an [id(] line are never looked at as
    [id(] lines themselves. *)
Theorem demultiplexer_reads_blocks (simplify : Expression -> Expression)
  (boxer_out : string) (occur use_disc_id : bool)
  (pre : list string) (blocks : list Block) :
  Py.split boxer_out newline = pre ++ flat_map lines_of blocks ->
  forallb no_id_line pre = true ->
  forallb well_formed blocks = true ->
  _parse_to_drs_dict simplify boxer_out occur use_disc_id
  = read_blocks simplify occur use_disc_id ∅ blocks.
Proof.
  intros L J W. unfold _parse_to_drs_dict.
  pose proof (skip_lines simplify _ occur use_disc_id pre [] (flat_map lines_of blocks) ∅
                L J) as R.
  destruct (loop_reaches _ _ _ _ _ _ _ _ R (S (length (Py.split boxer_out newline))))
    as (n' & Hn' & E); [cbn [length]; lia|].
  cbn [length Nat.add] in E, Hn'. rewrite E. apply loop_blocks; assumption.
Qed.

Lemma demultiplexer_reads_blocks_witness :
  _parse_to_drs_dict simplify two_discourses false true
  = OK (<["d2" := folded_drs]>
         (<["d1" := DRS [Variable_ "z1"] [atom "n_dog_d1_1" ["z1"]]]> ∅)).
Proof.
  rewrite (demultiplexer_reads_blocks simplify two_discourses false true
             [":- multifile sem/5, id/2."]
             [ {| blk_id := "'d1'"; blk_drs_id := "1"; blk_tail := ".";
                  blk_fill1 := [""; "%%% discourse 1"; ""]; blk_header := "";
                  blk_fill2 := ["    [word],"; "    [pos],"; "    [ne],"];
                  blk_term := "    " +:+ dog_term +:+ " "; blk_after := [] |};
               {| blk_id := "d2"; blk_drs_id := "2"; blk_tail := ".";
                  blk_fill1 := [""; "%%% discourse 2"; ""]; blk_header := "";
                  blk_fill2 := ["    [word],"; "    [pos],"; "    [ne],"];
                  blk_term := "    smerge(drs([[]:x],[]),drs([],[[]:rel(x,y,nn,0)])) ";
                  blk_after := [] |} ]);
    vm_compute; reflexivity.
Defined.

(** ** The entry points *)

(** X15.  [interpret] and [interpret_multisentence] ask for a batch of one
    discourse and take slot [0] of the answer: the length assertion never
    fails, the subscript never raises, and the result is what the dictionary
    has under the given identifier, or under ["0"] when none is given (and
    then the parser is told no discourse identifier). *)
Theorem interpret_is_lookup (simplify : Expression -> Expression)
  (run_boxer : list (list string) -> list string -> Result string)
  (input : list string) (occur : bool) (discourse_id : option string) :
  interpret_multisentence simplify run_boxer input occur discourse_id
  = (boxer_out <~ run_boxer [input] [single_id discourse_id] ;;
     drs_dict <~ _parse_to_drs_dict simplify boxer_out occur
                   (match discourse_id with Some _ => true | None => false end) ;;
     OK (drs_dict !! single_id discourse_id)) /\
  forall sentence, input = [sentence] ->
    interpret simplify run_boxer sentence occur discourse_id
    = interpret_multisentence simplify run_boxer input occur discourse_id.
Proof.
  split; [|now intros sentence ->].
  unfold interpret_multisentence, batch_interpret_multisentence.
  destruct discourse_id as [id|]; cbn [length Nat.eqb assert rbind single_id seq map];
    (destruct (run_boxer _ _) as [boxer_out| |]; cbn [rbind]; [|reflexivity..]);
    (destruct (_parse_to_drs_dict _ _ _ _) as [d| |]; cbn [rbind]; reflexivity).
Qed.

(** X16.  When no line of the external tool's output starts with [id(],
    [_parse_to_drs_dict] returns the empty dictionary, whatever else the
    output holds, and [interpret_multisentence] returns [None]. *)
Theorem output_without_id_lines (simplify : Expression -> Expression)
  (boxer_out : string) (occur use_disc_id : bool) :
  forallb no_id_line (Py.split boxer_out newline) = true ->
  _parse_to_drs_dict simplify boxer_out occur use_disc_id = OK ∅ /\
  forall run_boxer input discourse_id,
    run_boxer [input] [single_id discourse_id] = OK boxer_out ->
    interpret_multisentence simplify run_boxer input occur discourse_id = OK None.
Proof.
  intros J.
  assert (E : forall use, _parse_to_drs_dict simplify boxer_out occur use = OK ∅).
  { intros use. unfold _parse_to_drs_dict.
    pose proof (skip_lines simplify (Py.split boxer_out newline) occur use
                  (Py.split boxer_out newline) [] [] ∅
                  ltac:(now rewrite app_nil_r) J) as R.
    destruct (loop_reaches _ _ _ _ _ _ _ _ R (S (length (Py.split boxer_out newline))))
      as (n' & Hn' & E0); [cbn [length]; lia|].
    cbn [length Nat.add] in E0, Hn'. rewrite E0. destruct n' as [|n']; [lia|].
    cbn [loop]. now rewrite Nat.ltb_irrefl. }
  split; [apply E|]. intros run_boxer input discourse_id Hr.
  unfold interpret_multisentence, batch_interpret_multisentence.
  destruct discourse_id as [id|]; cbn [length Nat.eqb assert rbind single_id seq map] in *;
    change (Py.str (Z.of_nat 0)) with (Py.str 0);
    rewrite Hr; cbn [rbind]; rewrite E; reflexivity.
Qed.

Lemma output_without_id_lines_witness :
  interpret_multisentence simplify (fun _ _ => OK ":- multifile sem/5, id/2.")
    ["a dog"] true None = OK None.
Proof.
  apply (proj2 (output_without_id_lines simplify ":- multifile sem/5, id/2." true false
                  eq_refl)).
  reflexivity.
Defined.

(** X17.  The two layout checks of [_parse_to_drs_dict] stand before the
    call of the parser: when the loop comes to an [id(] line and the line
    four below does not start with [sem(<drs id>,], or that check passes and
    the line eight below does not end in [).], the call fails with
    [AssertionError] and no dictionary is returned. *)
Theorem failed_layout_check (simplify : Expression -> Expression)
  (boxer_out : string) (occur use_disc_id : bool)
  (i : nat) (d : gmap string Expression)
  (line id line4 : string) (comma_idx close_idx : nat) :
  reaches simplify (Py.split boxer_out newline) occur use_disc_id 0 ∅ i d ->
  Py.split boxer_out newline !! i = Some line ->
  Py.startswith line "id(" = true ->
  discourse_id_of line = OK (id, comma_idx) ->
  Py.index line ")" = Some close_idx ->
  Py.split boxer_out newline !! (i + 4)%nat = Some line4 ->
  (Py.startswith line4 ("sem(" +:+ Py.slice line (comma_idx + 1) close_idx +:+ ",") = false \/
   exists line8,
     Py.split boxer_out newline !! (i + 8)%nat = Some line8 /\
     Py.endswith line8 ")." = false) ->
  _parse_to_drs_dict simplify boxer_out occur use_disc_id = Raise AssertionError.
Proof.
  intros R L Hs D C L4 H.
  assert (Hi : (i < length (Py.split boxer_out newline))%nat)
    by (eapply lookup_lt_Some; exact L).
  unfold _parse_to_drs_dict.
  destruct (loop_reaches _ _ _ _ _ _ _ _ R (S (length (Py.split boxer_out newline)))
              ltac:(lia)) as (n' & Hn' & ->).
  apply loop_raises; [exact Hi | lia |].
  unfold step. rewrite L. cbn [or_raise rbind]. rewrite Hs.
  unfold parse_discourse. rewrite D. cbn [rbind]. rewrite C. cbn [or_raise rbind].
  rewrite L4. cbn [or_raise rbind].
  destruct (Py.startswith line4 _) eqn:S4; cbn [assert rbind]; [|reflexivity].
  destruct H as [H|(line8 & L8 & E8)]; [discriminate H|].
  rewrite L8. cbn [or_raise rbind]. now rewrite E8.
Qed.

Lemma failed_layout_check_witness :
  _parse_to_drs_dict simplify mismatched_header false true = Raise AssertionError.
Proof.
  apply (failed_layout_check simplify mismatched_header false true
           1 ∅ "id(1,2)." "1" "sem(1," 4 6).
  - eapply reaches_next; [vm_compute; lia | vm_compute; reflexivity |].
    apply reaches_here.
  - vm_compute; reflexivity.
  - vm_compute; reflexivity.
  - vm_compute; reflexivity.
  - vm_compute; reflexivity.
  - vm_compute; reflexivity.
  - left. vm_compute; reflexivity.
Defined.

Lemma substring_none (n : nat) : forall s, substring n 0 s = "".
Proof. induction n as [|n IH]; intros [|c s]; simpl; auto. Qed.

(** X18.  An [id(] line that cannot be taken apart ends the call: without
    a comma [line.index(',')] fails with [ValueError]; with the comma right
    after [id(] the identifier is empty and [discourse_id[0]] fails with
    [IndexError]; without a closing parenthesis [line.index(')')] fails with
    [ValueError]. *)
Theorem malformed_id_line (simplify : Expression -> Expression)
  (boxer_out : string) (occur use_disc_id : bool)
  (i : nat) (d : gmap string Expression) (line : string) :
  reaches simplify (Py.split boxer_out newline) occur use_disc_id 0 ∅ i d ->
  Py.split boxer_out newline !! i = Some line ->
  Py.startswith line "id(" = true ->
  (Py.index line "," = None ->
   _parse_to_drs_dict simplify boxer_out occur use_disc_id = Raise ValueError) /\
  (Py.index line "," = Some 3%nat ->
   _parse_to_drs_dict simplify boxer_out occur use_disc_id = Raise IndexError) /\
  (forall id comma_idx,
     discourse_id_of line = OK (id, comma_idx) -> Py.index line ")" = None ->
     _parse_to_drs_dict simplify boxer_out occur use_disc_id = Raise ValueError).
Proof.
  intros R L Hs.
  assert (Hi : (i < length (Py.split boxer_out newline))%nat)
    by (eapply lookup_lt_Some; exact L).
  assert (F : forall e,
             parse_discourse simplify (Py.split boxer_out newline) occur use_disc_id i line
             = Raise e ->
             _parse_to_drs_dict simplify boxer_out occur use_disc_id = Raise e).
  { intros e P. unfold _parse_to_drs_dict.
    destruct (loop_reaches _ _ _ _ _ _ _ _ R (S (length (Py.split boxer_out newline)))
                ltac:(lia)) as (n' & Hn' & ->).
    apply loop_raises; [exact Hi | lia |].
    unfold step. rewrite L. cbn [or_raise rbind]. now rewrite Hs, P. }
  repeat split.
  - intros C. apply F. unfold parse_discourse, discourse_id_of. now rewrite C.
  - intros C. apply F. unfold parse_discourse, discourse_id_of. rewrite C.
    cbn [or_raise rbind]. unfold Py.slice. now rewrite substring_none.
  - intros id comma_idx D C. apply F. unfold parse_discourse. rewrite D.
    cbn [rbind]. now rewrite C.
Qed.

Lemma malformed_id_line_witness :
  _parse_to_drs_dict simplify "id(,1)." false false = Raise IndexError.
Proof.
  apply (proj1 (proj2 (malformed_id_line simplify "id(,1)." false false 0 ∅ "id(,1)."
                         (reaches_here _ _ _ _ _ _) eq_refl eq_refl))).
  reflexivity.
Defined.

(** ** Default discourse identifiers *)

(** X19.  Called without identifiers, [batch_interpret] numbers the
    discourses [str(0)], [str(1)], ... in the order of the inputs and tells
    the parser no discourse identifier: what it returns has one slot per
    input, and slot [k] holds what the dictionary has under [str(k)]. *)
Theorem batch_interpret_default_ids (simplify : Expression -> Expression)
  (run_boxer : list (list string) -> list string -> Result string)
  (inputs : list string) (occur : bool) (results : list (option Expression)) :
  batch_interpret simplify run_boxer inputs occur None = OK results ->
  length results = length inputs /\
  exists boxer_out (drs_dict : gmap string Expression),
    run_boxer (map (fun input => [input]) inputs)
              (map (fun n => Py.str (Z.of_nat n)) (seq 0 (length inputs))) = OK boxer_out /\
    _parse_to_drs_dict simplify boxer_out occur false = OK drs_dict /\
    forall k : nat, (k < length inputs)%nat ->
      results !! k = Some (drs_dict !! Py.str (Z.of_nat k)).
Proof.
  unfold batch_interpret, batch_interpret_multisentence. rewrite length_map.
  cbn [rbind]. intros E.
  destruct (run_boxer _ _) as [boxer_out| |] eqn:Hr; try discriminate E.
  cbn [rbind] in E.
  destruct (_parse_to_drs_dict simplify boxer_out occur false) as [drs_dict| |] eqn:Hp;
    try discriminate E.
  cbn [rbind] in E. injection E as <-.
  split; [now rewrite !length_map, length_seq|].
  exists boxer_out, drs_dict. split; [reflexivity|]. split; [exact Hp|].
  intros k Hk. rewrite !list_lookup_fmap, lookup_seq_lt by exact Hk. reflexivity.
Qed.

Lemma batch_interpret_default_ids_witness :
  exists results,
    batch_interpret simplify
      (fun _ _ => OK (boxer_output [discourse_block "1" "1" dog_term]))
      ["x"; "a dog"] false None = OK results /\
    length results = 2%nat.
Proof.
  eexists. split; [vm_compute; reflexivity|].
  apply (batch_interpret_default_ids simplify
           (fun _ _ => OK (boxer_output [discourse_block "1" "1" dog_term]))
           ["x"; "a dog"] false).
  vm_compute. reflexivity.
Defined.

(** ** Times, and relations named [nn] *)

(** X20.  A [timex] condition with a [time] gives the marker atom
    [r_time_1(arg)] first, then one binary atom for each of hour, minute
    and second that is not [XX], in that order; the index annotations of
    the slots are read and dropped. *)
Theorem timex_time_conditions (self : BoxerDrsParser) (pe : M Expression)
  (indices : list (Z * Z)) (arg hour min sec : string)
  (il1 il2 il3 rest : list string) :
  index_annotation il1 -> index_annotation il2 -> index_annotation il3 ->
  handle_condition self pe "timex" indices
    ("(" :: arg :: "," :: "time" :: "(" ::
       il1 ++ hour :: "," :: il2 ++ min :: "," :: il3 ++ sec :: ")" :: ")" :: rest)
  = OK (Some (var_atom "r_time_1" [arg] :: time_conditions arg hour min sec), rest).
Proof.
  intros H1 H2 H3. unfold handle_condition. simpl.
  unfold _handle_timex, _handle_time_expression, _handle_time, slot, time_conditions. run.
  index_step H1. run. destruct (String.eqb hour "XX"); run;
    (index_step H2; run; destruct (String.eqb min "XX"); run;
     index_step H3; run; destruct (String.eqb sec "XX"); run; reflexivity).
Qed.

Lemma timex_time_conditions_witness :
  handle_condition default_parser (parse_Expression default_parser 0) "timex" []
    ["("; "x0"; ","; "time"; "("; "["; "1018"; "]"; ":"; "18"; ",";
     "["; "]"; ":"; "XX"; ","; "["; "]"; ":"; "XX"; ")"; ")"]
  = OK (Some [var_atom "r_time_1" ["x0"]; var_atom "r_hour_2" ["x0"; "18"]], []).
Proof.
  apply (timex_time_conditions default_parser (parse_Expression default_parser 0) []
           "x0" "18" "XX" "XX" ["["; "1018"; "]"; ":"] ["["; "]"; ":"] ["["; "]"; ":"] []);
    try apply empty_index_annotation.
  intros rest. exists [(0, 17)%Z]. reflexivity.
Defined.

Lemma append_same_suffix (f g s : string) : f +:+ s = g +:+ s -> f = g.
Proof.
  revert g. induction f as [|c f IH]; intros [|d g] E.
  - reflexivity.
  - exfalso. apply (f_equal String.length) in E. rewrite !length_append in E.
    simpl in E. lia.
  - exfalso. apply (f_equal String.length) in E. rewrite !length_append in E.
    simpl in E. lia.
  - change (String c (f +:+ s) = String d (g +:+ s)) in E. injection E as -> E.
    now rewrite (IH g E).
Qed.

(** X21.  A [rel] condition is read into the binary atom
    [r_<name>_2(arg1,arg2)], whatever its indices and its sense; the
    clean-up then turns it into the equality of its two arguments exactly
    when the name, with everything but letters, digits and underscores
    removed, is [nn], and leaves it as it is otherwise. *)
Theorem rel_nn_becomes_equality (self : BoxerDrsParser) (pe : M Expression)
  (indices : list (Z * Z)) (arg1 arg2 rel_name sense : string) (rest : list string) :
  handle_condition self pe "rel" indices (rel_tokens arg1 arg2 rel_name sense ++ rest)
  = OK (Some [rel_atom arg1 arg2 rel_name], rest) /\
  _clean_drs (rel_atom arg1 arg2 rel_name)
  = OK (if String.eqb (_format_pred_name rel_name) "nn"
        then eq_condition (arg1, arg2)
        else rel_atom arg1 arg2 rel_name).
Proof.
  split.
  - unfold handle_condition, rel_tokens. simpl. unfold _handle_rel. run. reflexivity.
  - unfold _clean_drs, rel_atom.
    rewrite nn_atom_shaped by reflexivity.
    unfold var_atom, apply_args. cbn [map fold_left nn_binary fold_nn uncurry uncurry_loop
      variable_name length Nat.eqb].
    assert (N : name (_make_Variable ("r_" +:+ _format_pred_name rel_name +:+ "_2"))
                = "r_" +:+ _format_pred_name rel_name +:+ "_2") by reflexivity.
    rewrite N.
    destruct (String.eqb (_format_pred_name rel_name) "nn") eqn:E.
    + apply String.eqb_eq in E. rewrite E. reflexivity.
    + assert (F : String.eqb ("r_" +:+ _format_pred_name rel_name +:+ "_2") "r_nn_2" = false).
      { apply String.eqb_neq. intros Q. apply String.eqb_neq in E. apply E.
        change ("r_" +:+ _format_pred_name rel_name +:+ "_2")
          with (String "r" (String "_" (_format_pred_name rel_name +:+ "_2"))) in Q.
        injection Q as Q. now apply (append_same_suffix _ "nn" "_2"). }
      rewrite F. reflexivity.
Qed.

(** ** An [id(] line that is never read *)

(** The loop steps over the eight lines under an [id(] line: an [id(] line
    among them names a discourse that the returned dictionary does not
    have.  So an identifier that stands on no [id(] line is absent
    ([parse_to_drs_dict_keys]), but an absent identifier may well stand on
    one. *)
Lemma id_line_under_id_line_is_skipped :
  _parse_to_drs_dict simplify id_line_under_id_line false true
  = OK (<["a" := DRS [Variable_ "z1"] [atom "n_dog_a_1" ["z1"]]]> ∅) /\
  (<["a" := DRS [Variable_ "z1"] [atom "n_dog_a_1" ["z1"]]]> ∅ : gmap string Expression)
    !! "zz" = None /\
  appears (Py.split id_line_under_id_line newline) "zz".
Proof.
  split; [vm_compute; reflexivity|]. split; [reflexivity|].
  exists "id(zz,9).", 5%nat. split; [|split; reflexivity].
  vm_compute. tauto.
Qed.
